(** * Messaging backend: sessions, message status, presence, read receipts

    A shallow embedding of [main.py] (the session gate [require_user], the
    handlers [send_message] and [mark_read], the WebSocket handler
    [websocket_endpoint]) and of the documents of [schemas.py], followed by
    the properties of the delivery and presence subsystem. *)

From Stdlib Require Import ZArith NArith String Ascii List Bool Lia.
From Stdlib Require Import Sorted Permutation.
From stdpp Require Import gmap strings list fin_maps.
Import ListNotations.

Local Open Scope string_scope.
Local Open Scope Z_scope.
Local Open Scope list_scope.

(** ** Object ids

    [bson.ObjectId(s)] on a [str] requires 24 characters and hands them to
    [bytes.fromhex], raising [InvalidId] when that fails.  [bytes.fromhex]
    reads pairs of hexadecimal digits and skips ASCII white space before a
    pair, so a string of 24 hexadecimal digits gives the 12 bytes of an
    id, and a string of 24 characters with white space between intact
    pairs is accepted too and gives fewer bytes.  A 12-byte id, the only
    kind a stored document carries, is kept as the number its bytes spell,
    below 16^24; an id of k < 12 bytes is kept as the number
    16^24 * (k + 1) + the number its bytes spell, so that two ids are
    equal exactly when their bytes are.  [str(oid)] prints the 24
    lower-case hexadecimal digits of a 12-byte id. *)

Definition hex_digit (c : ascii) : option N :=
  let n := N_of_ascii c in
  if ((48 <=? n) && (n <=? 57))%N then Some (n - 48)%N
  else if ((97 <=? n) && (n <=? 102))%N then Some (n - 87)%N
  else if ((65 <=? n) && (n <=? 70))%N then Some (n - 55)%N
  else None.

(** ASCII white space: tab, line feed, vertical tab, form feed, carriage
    return, space. *)
Definition is_space (c : ascii) : bool :=
  let n := N_of_ascii c in
  (((9 <=? n) && (n <=? 13)) || (n =? 32))%N.

(** [bytes.fromhex(s)]: the number the bytes read so far spell and how
    many they are; [None] where it raises [ValueError] (a character that
    is neither a digit nor white space, a pair cut short or split). *)
Fixpoint fromhex (s : string) (acc : N) (count : nat) : option (N * nat) :=
  match s with
  | EmptyString => Some (acc, count)
  | String c s' =>
      if is_space c then fromhex s' acc count
      else
        match hex_digit c, s' with
        | Some top, String c' s'' =>
            match hex_digit c' with
            | Some bot => fromhex s'' (256 * acc + (16 * top + bot))%N (S count)
            | None => None
            end
        | _, _ => None
        end
  end.

Definition ObjectId (s : string) : option N :=
  if Nat.eqb (String.length s) 24 then
    match fromhex s 0%N 0%nat with
    | Some (v, count) =>
        Some (if Nat.eqb count 12 then v else 16 ^ 24 * (N.of_nat count + 1) + v)%N
    | None => None
    end
  else None.

Definition hex_char (d : N) : ascii :=
  nth (N.to_nat d) (list_ascii_of_string "0123456789abcdef") "0"%char.

Fixpoint to_hex (k : nat) (n : N) (acc : string) : string :=
  match k with
  | O => acc
  | S k' => to_hex k' (n / 16)%N (String (hex_char (n mod 16)%N) acc)
  end.

(** [str(oid)], for a 12-byte id. *)
Definition str_oid (o : N) : string := to_hex 24 o "".

(** [[ObjectId(i) for i in message_ids]]: the first malformed id raises. *)
Fixpoint parse_ids (l : list string) : string + list N :=
  match l with
  | [] => inr []
  | i :: l' =>
      match ObjectId i with
      | None => inl i
      | Some o =>
          match parse_ids l' with
          | inl bad => inl bad
          | inr os => inr (o :: os)
          end
      end
  end.

(** ** Documents ([schemas.py]) *)

(** [Message.status]: "sent | delivered | read". *)
Inductive Status := sent | delivered | read.

(** Position of a status in the lifecycle sent, delivered, read. *)
Definition rank (s : Status) : nat :=
  match s with sent => 0 | delivered => 1 | read => 2 end.

(** A stored session document.  Times are instants on the UTC time line,
    as integers.  The handler reads [expires_at] with [.get], so the
    field is optional in a stored document. *)
Record Session := mkSession {
  user_id : string;
  token : string;
  expires_at : option Z
}.

(** The value a request gives under "token".  The HTTP requests are
    validated to carry a string.  The first frame of a connection is raw
    JSON: its entry may be absent or anything else, and then it is the
    store that says which session documents the filter selects. *)
Inductive TokenValue :=
| TokStr (s : string)
| TokRaw (selects : Session -> bool).

Record Message := mkMessage {
  sender_id : string;
  recipient_id : string;
  text : option string;
  ciphertext : option string;
  nonce : option string;
  status : Status;
  sent_at : option Z;
  delivered_at : option Z;
  read_at : option Z
}.

(** ** Requests *)

Module SendMessageRequest.
Record t := mk {
  token : string;
  recipient_id : string;
  text : option string;
  ciphertext : option string;
  nonce : option string
}.
End SendMessageRequest.

Module ReadReceiptRequest.
Record t := mk {
  token : string;
  message_ids : list string
}.
End ReadReceiptRequest.

(** ** Connections and the frames pushed over them *)

(** A [WebSocket] object, known by its identity ([sock is ws]). *)
Definition WebSocket := nat.

(** The JSON objects handed to [ws.send_json]. *)
Inductive Event :=
| EvConnected (uid : string)
| EvMessage (id sender recipient : string)
            (body cipher nonce_ : option string) (sent_at_ : option Z)
| EvRead (message_id : string) (read_at_ : Z) (reader : string).

(** ** Exceptions and what the framework answers *)

Inductive Exn :=
| HTTPException (status_code : nat) (detail : string)
| InvalidId (oid : string)          (* bson.errors.InvalidId *)
| WebSocketDisconnect
| SendFailed                         (* send_json on a broken connection *)
| OtherError.

Inductive Outcome (A : Type) :=
| Ok (a : A)
| Raise (e : Exn).
Arguments Ok {A} a.
Arguments Raise {A} e.

(** The status code of the HTTP response: an [HTTPException] carries its
    own, any other exception leaves the handler unhandled and is answered
    with 500. *)
Definition http_status {A} (o : Outcome A) : nat :=
  match o with
  | Ok _ => 200%nat
  | Raise (HTTPException c _) => c
  | Raise _ => 500%nat
  end.

Definition client_error {A} (o : Outcome A) : bool :=
  (400 <=? http_status o)%nat && (http_status o <? 500)%nat.

(** ** The process state

    [db["session"]] and [db["message"]] are the two collections the core
    reads and writes; [active_connections] is the module-level dict.  A
    Python dict iterates in insertion order and the cleanup loop of
    [websocket_endpoint] stops at its first hit, so the dict is kept as an
    ordered association list with one entry per key.  [clock_reads] and
    [pushes] count the calls of [now_utc] and [send_json] made so far:
    what the n-th call answers is given by the environment. *)

Record World := mkWorld {
  db_session : list Session;
  db_message : gmap N Message;
  active_connections : list (string * WebSocket);
  clock_reads : nat;
  pushes : nat
}.

(** What the outside decides: the instant each [now_utc()] returns and
    whether each [send_json] goes through. *)
Record Env := mkEnv {
  clock : nat -> Z;
  link_up : nat -> bool
}.

Definition with_message (f : gmap N Message -> gmap N Message) (w : World) : World :=
  mkWorld (db_session w) (f (db_message w)) (active_connections w)
          (clock_reads w) (pushes w).

Definition with_connections
    (f : list (string * WebSocket) -> list (string * WebSocket)) (w : World) : World :=
  mkWorld (db_session w) (db_message w) (f (active_connections w))
          (clock_reads w) (pushes w).

(** One more reading of the clock. *)
Definition tick (w : World) : World :=
  mkWorld (db_session w) (db_message w) (active_connections w)
          (S (clock_reads w)) (pushes w).

(** One more push attempted. *)
Definition attempt (w : World) : World :=
  mkWorld (db_session w) (db_message w) (active_connections w)
          (clock_reads w) (S (pushes w)).

(** *** The dict [active_connections] *)

(** [d.get(k)] *)
Fixpoint dict_get (k : string) (d : list (string * WebSocket)) : option WebSocket :=
  match d with
  | [] => None
  | (k', v) :: d' => if String.eqb k' k then Some v else dict_get k d'
  end.

(** [d[k] = v]: an existing key keeps its place, a new one goes last. *)
Fixpoint dict_set (k : string) (v : WebSocket) (d : list (string * WebSocket))
  : list (string * WebSocket) :=
  match d with
  | [] => [(k, v)]
  | (k', v') :: d' =>
      if String.eqb k' k then (k, v) :: d' else (k', v') :: dict_set k v d'
  end.

(** [d.pop(k, None)] *)
Fixpoint dict_pop (k : string) (d : list (string * WebSocket))
  : list (string * WebSocket) :=
  match d with
  | [] => []
  | (k', v') :: d' =>
      if String.eqb k' k then d' else (k', v') :: dict_pop k d'
  end.

(** Presence Registry, [register]: [active_connections[user_id] = ws]. *)
Definition register (uid : string) (ws : WebSocket)
    (d : list (string * WebSocket)) : list (string * WebSocket) :=
  dict_set uid ws d.

(** Presence Registry, [deregister]: the body of the [finally] block,
<<
    for uid, sock in list(active_connections.items()):
        if sock is ws:
            active_connections.pop(uid, None)
            break
>> *)
Definition deregister (ws : WebSocket) (d : list (string * WebSocket))
  : list (string * WebSocket) :=
  match List.find (fun item => Nat.eqb (snd item) ws) d with
  | Some (uid, _) => dict_pop uid d
  | None => d
  end.

(** Presence Registry, [lookup]: [active_connections.get(user_id)]. *)
Definition lookup_presence (uid : string) (d : list (string * WebSocket))
  : option WebSocket :=
  dict_get uid d.

(** *** Effects a handler performs, in order *)

Inductive Effect :=
| Pushed (ws : WebSocket) (ev : Event)       (* a send_json that went through *)
| Registered (uid : string) (ws : WebSocket)
| Deregistered (ws : WebSocket).             (* the cleanup block ran for ws *)

(** A handler: reads and writes the world, returns or raises, and leaves
    the trace of its effects. *)
Definition M (A : Type) : Type := World -> Outcome A * World * list Effect.

Definition ret {A} (a : A) : M A := fun w => (Ok a, w, []).

Definition raise {A} (e : Exn) : M A := fun w => (Raise e, w, []).

Definition bind {A B} (c : M A) (k : A -> M B) : M B :=
  fun w =>
    match c w with
    | (Ok a, w1, t1) =>
        match k a w1 with
        | (o, w2, t2) => (o, w2, t1 ++ t2)
        end
    | (Raise e, w1, t1) => (Raise e, w1, t1)
    end.

Notation "'let*' x ':=' c 'in' k" := (bind c (fun x => k))
  (at level 10, x pattern, c at level 100, k at level 200).

Definition outcome {A} (r : Outcome A * World * list Effect) : Outcome A := fst (fst r).
Definition world_of {A} (r : Outcome A * World * list Effect) : World := snd (fst r).
Definition trace_of {A} (r : Outcome A * World * list Effect) : list Effect := snd r.

(** A stretch of the [try] block of [websocket_endpoint], from one await
    to the next.  An exception is caught ([except WebSocketDisconnect:
    pass], [except Exception: pass]), the [finally] block runs and the
    handler returns; otherwise the handler stays inside the [try]. *)
Definition or_close {A} (body : M A) (cleanup : M unit) : M (option A) :=
  fun w =>
    match body w with
    | (Ok a, w1, t1) => (Ok (Some a), w1, t1)
    | (Raise _, w1, t1) =>
        match cleanup w1 with
        | (_, w2, t2) => (Ok None, w2, t1 ++ t2)
        end
    end.

(** ** The document store and the primitives of the handlers *)

(** The filter [{"token": token}]. *)
Definition token_is (tok : TokenValue) (s : Session) : bool :=
  match tok with
  | TokStr t => String.eqb (token s) t
  | TokRaw selects => selects s
  end.

(** The [$set] of the delivered-transition. *)
Definition set_delivered (t : Z) (m : Message) : Message :=
  mkMessage (sender_id m) (recipient_id m) (text m) (ciphertext m) (nonce m)
            delivered (sent_at m) (Some t) (read_at m).

(** The [$set] of the read-transition. *)
Definition set_read (t : Z) (m : Message) : Message :=
  mkMessage (sender_id m) (recipient_id m) (text m) (ciphertext m) (nonce m)
            read (sent_at m) (delivered_at m) (Some t).

(** The filter [{"_id": {"$in": ids}, "recipient_id": user_id}]. *)
Definition read_filter (ids : list N) (uid : string) (k : N) (m : Message) : bool :=
  existsb (N.eqb k) ids && String.eqb (recipient_id m) uid.

Section Handlers.

Variable E : Env.

(** [now_utc()] *)
Definition now_utc : M Z :=
  fun w => (Ok (clock E (clock_reads w)), tick w, []).

(** [await ws.send_json(ev)]: goes through, or raises on a broken
    connection. *)
Definition send_json (ws : WebSocket) (ev : Event) : M unit :=
  fun w =>
    if link_up E (pushes w) then (Ok tt, attempt w, [Pushed ws ev])
    else (Raise SendFailed, attempt w, []).

(** Modelled from the spec: [get_documents] of the [database] module, which
    is not among the sources; the document store's find-many-by-filter,
    here on the session collection with the filter [{"token": token}].
    The matches come back in the collection's order. *)
Definition get_documents_session (tok : TokenValue) : M (list Session) :=
  fun w => (Ok (List.filter (token_is tok) (db_session w)), w, []).

(** Modelled from the spec: [create_document] of the [database] module, which
    is not among the sources; the document store's insert-one, which
    returns the generated id (as a string).  The store generates an id
    no stored message has. *)
Definition create_document_message (msg : Message) : M string :=
  fun w =>
    let oid := fresh (dom (db_message w)) in
    (Ok (str_oid oid), with_message (insert oid msg) w, []).

(** [db["message"].update_one({"_id": oid}, {"$set": ...})] *)
Definition update_one (oid : N) (f : Message -> Message) : M unit :=
  fun w => (Ok tt, with_message (alter f oid) w, []).

(** [db["message"].update_many(filter, {"$set": ...})] *)
Definition update_many (p : N -> Message -> bool) (f : Message -> Message) : M unit :=
  fun w =>
    (Ok tt,
     with_message (map_imap (fun k m => Some (if p k m then f m else m))) w,
     []).

(** [db["message"].find_one({"_id": oid})] *)
Definition find_one (oid : N) : M (option Message) :=
  fun w => (Ok (db_message w !! oid), w, []).

(** [active_connections.get(uid)] *)
Definition connections_get (uid : string) : M (option WebSocket) :=
  fun w => (Ok (lookup_presence uid (active_connections w)), w, []).

(** ** [require_user] *)

Definition require_user (tok : TokenValue) : M string :=
  let* sessions := get_documents_session tok in
  match sessions with
  | [] => raise (HTTPException 401 "Invalid token")
  | session :: _ =>
      match expires_at session with
      | Some e =>
          let* now := now_utc in
          if e <? now then raise (HTTPException 401 "Session expired")
          else ret (user_id session)
      | None => ret (user_id session)
      end
  end.

(** ** [send_message]

    The handler suspends once, at [await ws.send_json(...)]; what runs
    before and after that point is given separately, so that other
    handlers can be scheduled in between. *)

(** Up to the await: the message is stored with status sent and the
    recipient looked up; returns the id and, for a present recipient, the
    push to attempt. *)
Definition send_message_dispatch (req : SendMessageRequest.t)
  : M (string * option (WebSocket * Event)) :=
  let* sender := require_user (TokStr (SendMessageRequest.token req)) in
  let* t := now_utc in
  let msg := mkMessage sender (SendMessageRequest.recipient_id req)
                       (SendMessageRequest.text req)
                       (SendMessageRequest.ciphertext req)
                       (SendMessageRequest.nonce req)
                       sent (Some t) None None in
  let* msg_id := create_document_message msg in
  let* ws := connections_get (SendMessageRequest.recipient_id req) in
  match ws with
  | Some ws =>
      ret (msg_id,
           Some (ws, EvMessage msg_id sender (SendMessageRequest.recipient_id req)
                               (SendMessageRequest.text req)
                               (SendMessageRequest.ciphertext req)
                               (SendMessageRequest.nonce req) (Some t)))
  | None => ret (msg_id, None)
  end.

(** After the await: the unconditional update "mark delivered". *)
Definition send_message_delivered (msg_id : string) : M string :=
  match ObjectId msg_id with
  | None => raise (InvalidId msg_id)
  | Some oid =>
      let* t := now_utc in
      let* _ := update_one oid (set_delivered t) in
      ret msg_id
  end.

(** The whole handler, run without anything scheduled in between. *)
Definition send_message (req : SendMessageRequest.t) : M string :=
  let* (msg_id, push) := send_message_dispatch req in
  match push with
  | Some (ws, ev) =>
      let* _ := send_json ws ev in
      send_message_delivered msg_id
  | None => ret msg_id
  end.

(** ** [mark_read] *)

(** The loop "Notify senders if online". *)
Fixpoint notify_senders (uid : string) (ids : list N) : M unit :=
  match ids with
  | [] => ret tt
  | oid :: rest =>
      let* m := find_one oid in
      match m with
      | None => notify_senders uid rest
      | Some m =>
          let* ws := connections_get (sender_id m) in
          match ws with
          | Some ws =>
              let* t := now_utc in
              let* _ := send_json ws (EvRead (str_oid oid) t uid) in
              notify_senders uid rest
          | None => notify_senders uid rest
          end
      end
  end.

(** Returns the value under the key "updated". *)
Definition mark_read (req : ReadReceiptRequest.t) : M nat :=
  let* uid := require_user (TokStr (ReadReceiptRequest.token req)) in
  match parse_ids (ReadReceiptRequest.message_ids req) with
  | inl bad => raise (InvalidId bad)
  | inr ids =>
      let* t := now_utc in
      let* _ := update_many (read_filter ids uid) (set_read t) in
      let* _ := notify_senders uid ids in
      ret (length ids)
  end.

(** ** [websocket_endpoint]

    The handler suspends at [accept], at [receive_json] and at each
    [receive_text]; a phase names the await it is suspended at. *)

Inductive Phase :=
| Accepting        (* at [await ws.accept()], before the [try] *)
| Connecting       (* at [await ws.receive_json()] *)
| Authenticated    (* at [await ws.receive_text()], in the loop *)
| Closed           (* returned, the [finally] block has run *)
| Aborted.         (* [accept] raised: the exception left the handler *)

(** What the awaited call answers when the handler is resumed. *)
Inductive Wake :=
| AcceptDone                       (* [accept] returned *)
| FrameJson (tok : TokenValue)     (* a frame holding a JSON object, with
                                      what it has under "token" *)
| FrameText                        (* any other text frame *)
| PeerClosed                       (* it raised WebSocketDisconnect *)
| Failure.                         (* it raised another exception *)

(** [active_connections[user_id] = ws] *)
Definition do_register (uid : string) (ws : WebSocket) : M unit :=
  fun w => (Ok tt, with_connections (register uid ws) w, [Registered uid ws]).

(** The [finally] block. *)
Definition cleanup (ws : WebSocket) : M unit :=
  fun w => (Ok tt, with_connections (deregister ws) w, [Deregistered ws]).

(** From the first frame to the loop: token, gate, registration,
    confirmation. *)
Definition authenticate (ws : WebSocket) (tok : TokenValue) : M unit :=
  let* uid := require_user tok in
  let* _ := do_register uid ws in
  send_json ws (EvConnected uid).

Definition phase_of {A} (next : Phase) (r : option A) : Phase :=
  match r with Some _ => next | None => Closed end.

(** One resumption of the handler of connection [ws]. *)
Definition ws_resume (ws : WebSocket) (ph : Phase) (k : Wake) : M Phase :=
  match ph with
  | Accepting =>
      match k with
      | AcceptDone => ret Connecting
      | PeerClosed | Failure => ret Aborted
      | _ => ret Accepting
      end
  | Connecting =>
      match k with
      | FrameJson tok =>
          let* r := or_close (authenticate ws tok) (cleanup ws) in
          ret (phase_of Authenticated r)
      | FrameText =>
          (* not JSON, or JSON without [.get] *)
          let* r := or_close (@raise unit OtherError) (cleanup ws) in
          ret (phase_of Authenticated r)
      | PeerClosed =>
          let* r := or_close (@raise unit WebSocketDisconnect) (cleanup ws) in
          ret (phase_of Authenticated r)
      | Failure =>
          let* r := or_close (@raise unit OtherError) (cleanup ws) in
          ret (phase_of Authenticated r)
      | AcceptDone => ret Connecting
      end
  | Authenticated =>
      match k with
      | FrameJson _ | FrameText => ret Authenticated
      | PeerClosed =>
          let* r := or_close (@raise unit WebSocketDisconnect) (cleanup ws) in
          ret (phase_of Authenticated r)
      | Failure =>
          let* r := or_close (@raise unit OtherError) (cleanup ws) in
          ret (phase_of Authenticated r)
      | AcceptDone => ret Authenticated
      end
  | Closed => ret Closed
  | Aborted => ret Aborted
  end.

(** The life of one connection: before each resumption the other tasks of
    the process have run and changed the world in some way. *)
Fixpoint ws_run (ws : WebSocket) (ph : Phase)
    (script : list ((World -> World) * Wake)) (w : World)
  : Phase * World * list Effect :=
  match script with
  | [] => (ph, w, [])
  | (others, k) :: rest =>
      match ws_resume ws ph k (others w) with
      | (Ok ph1, w1, t1) =>
          match ws_run ws ph1 rest w1 with
          | (ph2, w2, t2) => (ph2, w2, t1 ++ t2)
          end
      | (Raise _, w1, t1) => (Aborted, w1, t1)
      end
  end.

(** The handler from its start, suspended at [accept]. *)
Definition websocket_endpoint (ws : WebSocket)
    (script : list ((World -> World) * Wake)) (w : World)
  : Phase * World * list Effect :=
  ws_run ws Accepting script w.

(** ** Interleaved requests

    A send suspended at its await holds the id of its message and the push
    it is attempting.  The scheduler starts a send, resumes a suspended
    one, or runs a read receipt. *)

Record Sys := mkSys {
  sys_world : World;
  pending : list (string * WebSocket * Event)
}.

Inductive Action :=
| SendStart (req : SendMessageRequest.t)
| SendResume                                   (* the oldest suspended send *)
| MarkRead (req : ReadReceiptRequest.t).

Definition sys_step (a : Action) (s : Sys) : Sys :=
  match a with
  | SendStart req =>
      match send_message_dispatch req (sys_world s) with
      | (Ok (msg_id, Some (ws, ev)), w1, _) =>
          mkSys w1 (pending s ++ [(msg_id, ws, ev)])
      | (_, w1, _) => mkSys w1 (pending s)
      end
  | SendResume =>
      match pending s with
      | [] => s
      | (msg_id, ws, ev) :: rest =>
          mkSys (world_of ((let* _ := send_json ws ev in
                            send_message_delivered msg_id) (sys_world s)))
                rest
      end
  | MarkRead req => mkSys (world_of (mark_read req (sys_world s))) (pending s)
  end.

Definition sys_run (acts : list Action) (s : Sys) : Sys :=
  fold_left (fun s a => sys_step a s) acts s.

End Handlers.

(** The status of the stored message [oid], if any. *)
Definition status_of (w : World) (oid : N) : option Status :=
  status <$> db_message w !! oid.

(** The messages a read receipt of [uid] for [ids] updates. *)
Definition updated_by (ids : list N) (uid : string) (w : World) : gmap N Message :=
  filter (fun km => read_filter ids uid (fst km) (snd km) = true) (db_message w).

Definition is_deregistered (ws : WebSocket) (e : Effect) : bool :=
  match e with Deregistered ws' => Nat.eqb ws' ws | _ => false end.

Definition is_registered (ws : WebSocket) (e : Effect) : bool :=
  match e with Registered _ ws' => Nat.eqb ws' ws | _ => false end.

(** How many times the cleanup of [ws] ran in a trace. *)
Definition deregistrations (ws : WebSocket) (t : list Effect) : nat :=
  length (List.filter (is_deregistered ws) t).

(** Two worlds with the same stored documents and the same presence
    entries. *)
Definition same_state (w w' : World) : Prop :=
  db_session w' = db_session w
  /\ db_message w' = db_message w
  /\ active_connections w' = active_connections w.

(** The messages of the store after the [update_many] of a read receipt of
    [uid] for [ids] at time [t]. *)
Definition after_read (ids : list N) (uid : string) (t : Z)
    (msgs : gmap N Message) : gmap N Message :=
  map_imap (fun k m => Some (if read_filter ids uid k m then set_read t m else m)) msgs.

Definition is_closed (ph : Phase) : bool :=
  match ph with Closed => true | _ => false end.

(** The phases of an accepted connection. *)
Definition accepted (ph : Phase) : bool :=
  match ph with Connecting | Authenticated | Closed => true | _ => false end.

(** The awaited call raised: the peer went away or the transport
    failed. *)
Definition is_exit (k : Wake) : bool :=
  match k with PeerClosed | Failure => true | _ => false end.

(** ** Who holds a connection in the registry

    Only the handler of a connection ever stores that connection in
    [active_connections]; the other tasks store their own connections or
    remove entries. *)

Definition held_by_nobody (ws : WebSocket) (d : list (string * WebSocket)) : Prop :=
  forall u, lookup_presence u d <> Some ws.

Definition held_at_most_once (ws : WebSocket) (d : list (string * WebSocket)) : Prop :=
  forall u1 u2,
    lookup_presence u1 d = Some ws -> lookup_presence u2 d = Some ws -> u1 = u2.

(** What the registry may hold of [ws] while its handler is in phase
    [ph]: an entry only between the registration and the cleanup. *)
Definition holders_ok (ws : WebSocket) (ph : Phase) (d : list (string * WebSocket))
  : Prop :=
  match ph with
  | Authenticated => held_at_most_once ws d
  | _ => held_by_nobody ws d
  end.

(** A step of the other tasks that does not store [ws]: the registry stays
    a dict, one entry per key, and who holds [ws] afterwards held it
    before. *)
Definition leaves_alone (ws : WebSocket) (others : World -> World) : Prop :=
  forall w,
    List.NoDup (map fst (active_connections w)) ->
    List.NoDup (map fst (active_connections (others w)))
    /\ (forall u,
          lookup_presence u (active_connections (others w)) = Some ws ->
          lookup_presence u (active_connections w) = Some ws).

(** What [lookup] answers in a registry once the entry of [ws] is gone. *)
Definition without (ws : WebSocket) (d : list (string * WebSocket)) (u : string)
  : option WebSocket :=
  match lookup_presence u d with
  | Some c => if Nat.eqb c ws then None else Some c
  | None => None
  end.

(** ** A small deployment, for the examples

    Three users with a live session each; one stored message from alice
    to bob, still sent; alice is connected, bob and carol are not. *)

Definition env_up : Env := mkEnv (fun n => 100 + Z.of_nat n) (fun _ => true).

Definition env_down : Env := mkEnv (fun n => 100 + Z.of_nat n) (fun _ => false).

Definition hi : Message :=
  mkMessage "alice" "bob" (Some "hi") None None sent (Some 10) None None.

Definition id1 : string := "000000000000000000000001".

Definition deployment : World :=
  mkWorld [mkSession "alice" "ta" (Some 1000);
           mkSession "bob" "tb" (Some 1000);
           mkSession "carol" "tc" (Some 1000)]
          {[ 1%N := hi ]}
          [("alice", 5%nat)]
          0 0.

(** The same deployment with bob connected instead of alice. *)
Definition deployment_bob : World :=
  with_connections (fun _ => [("bob", 7%nat)]) deployment.

Definition id2 : string := "000000000000000000000002".

Definition yo : SendMessageRequest.t :=
  SendMessageRequest.mk "ta" "bob" (Some "yo") None None.

(** ** Who a read receipt notifies

    The (connection, message id) pairs of the loop "Notify senders if
    online" when every push goes through: one per listed id, in the order
    of the list, that names a stored message whose sender is connected. *)
Definition notifications (w : World) (ids : list N) : list (WebSocket * string) :=
  flat_map
    (fun oid =>
       match db_message w !! oid with
       | Some m =>
           match lookup_presence (sender_id m) (active_connections w) with
           | Some ws => [(ws, str_oid oid)]
           | None => []
           end
       | None => []
       end)
    ids.

(** The connection and message id of a pushed read event. *)
Definition push_target (e : Effect) : option (WebSocket * string) :=
  match e with
  | Pushed ws (EvRead mid _ _) => Some (ws, mid)
  | _ => None
  end.

(** Resumptions during which no other task runs. *)
Definition quiet (ks : list Wake) : list ((World -> World) * Wake) :=
  map (fun k => (fun w : World => w, k)) ks.

(** A frame from the peer, as opposed to an exit or the end of [accept]. *)
Definition is_frame (k : Wake) : bool :=
  match k with FrameJson _ | FrameText => true | _ => false end.

(** ** What the handlers make of a stored message *)

(** The timestamps fit the status: a message has a sent_at; while sent it
    has neither delivered_at nor read_at; a delivered one has a
    delivered_at and a read one a read_at. *)
Definition lifecycle_ok (m : Message) : Prop :=
  is_Some (sent_at m)
  /\ (status m = sent -> delivered_at m = None /\ read_at m = None)
  /\ (status m = delivered -> is_Some (delivered_at m))
  /\ (status m = read -> is_Some (read_at m)).

(** [m'] is a later state of the stored message [m]: same sender,
    recipient, body and sent_at; not back to sent; a timestamp that was
    set is still set. *)
Definition evolves (m m' : Message) : Prop :=
  sender_id m' = sender_id m
  /\ recipient_id m' = recipient_id m
  /\ text m' = text m
  /\ ciphertext m' = ciphertext m
  /\ nonce m' = nonce m
  /\ sent_at m' = sent_at m
  /\ (status m <> sent -> status m' <> sent)
  /\ (is_Some (delivered_at m) -> is_Some (delivered_at m'))
  /\ (is_Some (read_at m) -> is_Some (read_at m')).

(** The ways one scheduler step changes the message collection. *)
Inductive db_step (D : gmap N Message) : gmap N Message -> Prop :=
| db_same : db_step D D
| db_insert oid msg :
    D !! oid = None -> lifecycle_ok msg -> db_step D (<[oid := msg]> D)
| db_delivered t oid : db_step D (alter (set_delivered t) oid D)
| db_read ids uid t : db_step D (after_read ids uid t D).

(** ** [get_history] *)

(** An entry of the list [get_history] returns. *)
Module HistoryItem.
Record t := mk {
  _id : string;
  sender_id : string;
  recipient_id : string;
  text : option string;
  ciphertext : option string;
  nonce : option string;
  status : Status;
  sent_at : option Z;
  delivered_at : option Z;
  read_at : option Z
}.
End HistoryItem.

(** The filter of [get_history]: "Get both directions". *)
Definition between (user peer : string) (m : Message) : bool :=
  (String.eqb (sender_id m) user && String.eqb (recipient_id m) peer)
  || (String.eqb (sender_id m) peer && String.eqb (recipient_id m) user).

(** [sorted(l, key=...)] on keys that are instants: a stable sort,
    ascending. *)
Fixpoint insert_by {A} (key : A -> Z) (x : A) (l : list A) : list A :=
  match l with
  | [] => [x]
  | y :: l' => if key x <=? key y then x :: y :: l' else y :: insert_by key x l'
  end.

Definition sort_by {A} (key : A -> Z) (l : list A) : list A :=
  fold_right (insert_by key) [] l.

(** Each element with its key, if every element has one. *)
Fixpoint with_keys {A} (key : A -> option Z) (l : list A) : option (list (Z * A)) :=
  match l with
  | [] => Some []
  | x :: l' =>
      match key x, with_keys key l' with
      | Some k, Some kl => Some ((k, x) :: kl)
      | _, _ => None
      end
  end.

(** [sorted(l, key=...)] where a key may be [None]: with two elements or
    more, a [None] among the keys makes the comparison raise
    [TypeError]. *)
Definition sorted_by_key {A} (key : A -> option Z) (l : list A) : Outcome (list A) :=
  match l with
  | [] | [_] => Ok l
  | _ =>
      match with_keys key l with
      | Some kl => Ok (map snd (sort_by fst kl))
      | None => Raise OtherError
      end
  end.

Section History.

Variable E : Env.

(** The [created_at] entry of the stored message documents, by id; it is
    written by the store's insert, outside the handlers. *)
Variable created_at : N -> option Z.

(** [ts(m)]: [m.get("sent_at") or m.get("created_at")]. *)
Definition ts (d : N * Message) : option Z :=
  match sent_at (snd d) with
  | Some t => Some t
  | None => created_at (fst d)
  end.

(** Modelled from the spec: [get_documents] of the [database] module, which
    is not among the sources; the document store's find-many-by-filter on
    the message collection.  The matches come back in the order of the
    store, here that of [map_to_list]. *)
Definition get_documents_message (p : Message -> bool) : M (list (N * Message)) :=
  fun w => (Ok (List.filter (fun d => p (snd d)) (map_to_list (db_message w))), w, []).

(** The dict built for each message of the answer. *)
Definition history_item (d : N * Message) : HistoryItem.t :=
  HistoryItem.mk (str_oid (fst d)) (sender_id (snd d)) (recipient_id (snd d))
                 (text (snd d)) (ciphertext (snd d)) (nonce (snd d))
                 (status (snd d)) (ts d) (delivered_at (snd d)) (read_at (snd d)).

Definition get_history (token_ peer_user_id : string) : M (list HistoryItem.t) :=
  let* uid := require_user E (TokStr token_) in
  let* msgs := get_documents_message (between uid peer_user_id) in
  match sorted_by_key ts msgs with
  | Ok msgs_sorted => ret (map history_item msgs_sorted)
  | Raise e => raise e
  end.

End History.

(** ** Accounts: [generate_code], [start_verification], [verify_code] *)

(** A stored verification document: the fields of [Verification] and the
    [created_at] entry [verify_code] sorts by. *)
Module Verification.
Record t := mk {
  phone : string;
  code : string;
  expires_at : option Z;
  attempts : Z;
  created_at : option Z
}.
End Verification.

Module User.
Record t := mk {
  phone : string;
  name : string;
  photo_url : option string;
  about : option string
}.
End User.

Module StartVerificationRequest.
Record t := mk {
  phone : string
}.
End StartVerificationRequest.

Module VerifyCodeRequest.
Record t := mk {
  phone : string;
  code : string;
  name : option string;
  photo_url : option string
}.
End VerifyCodeRequest.

(** [db["verification"]] and [db["user"]], in the order of insertion. *)
Record Accounts := mkAccounts {
  db_verification : list Verification.t;
  db_user : list (N * User.t)
}.

(** [timedelta(minutes=n)] and [timedelta(days=n)], in microseconds, the
    resolution of [datetime]. *)
Definition minutes (n : Z) : Z := n * 60000000.

Definition days (n : Z) : Z := n * 86400000000.

(** [generate_code(n)]: [n] draws of [secrets.choice(string.digits)],
    joined; [choice i] is the index of the i-th draw, below ten. *)
Definition generate_code (choice : nat -> nat) (n : nat) : string :=
  string_of_list_ascii
    (map (fun i => nth (choice i mod 10) (list_ascii_of_string "0123456789") "0"%char)
         (seq 0 n)).

(** [req.name or "New User"] *)
Definition name_or_default (name : option string) : string :=
  match name with
  | None | Some "" => "New User"
  | Some n => n
  end.

(** [sorted(records, key=lambda x: x.get("created_at"), reverse=True)]:
    the stable sort on the opposite keys. *)
Definition latest_first (records : list Verification.t) : Outcome (list Verification.t) :=
  sorted_by_key (fun v => Z.opp <$> Verification.created_at v) records.

(** [create_document("session", session)], appended to the collection. *)
Definition add_session (s : Session) (w : World) : World :=
  mkWorld (db_session w ++ [s]) (db_message w) (active_connections w)
          (clock_reads w) (pushes w).

Section Accounts.

Variable E : Env.

(** Modelled from the spec: [create_document] of the [database] module, which
    is not among the sources; the document store's insert-one on the
    verification collection.  The store stamps the document with the time
    of its creation, the [created_at] that [verify_code] reads back. *)
Definition create_document_verification
    (phone code : string) (expires : Z) (st : Accounts * World) : Accounts * World :=
  let (a, w) := st in
  let v := Verification.mk phone code (Some expires) 0
                           (Some (clock E (clock_reads w))) in
  (mkAccounts (db_verification a ++ [v]) (db_user a), tick w).

(** Modelled from the spec: [create_document] of the [database] module, which
    is not among the sources; the document store's insert-one on the user
    collection, which returns the generated id, one no stored user has. *)
Definition create_document_user (u : User.t) (a : Accounts) : string * Accounts :=
  let oid := fresh (list_to_set (map fst (db_user a)) : gset N) in
  (str_oid oid, mkAccounts (db_verification a) (db_user a ++ [(oid, u)])).

(** Returns [(phone, code, expires_at)]. *)
Definition start_verification (choice : nat -> nat)
    (req : StartVerificationRequest.t) (st : Accounts * World)
  : Outcome (string * string * Z) * (Accounts * World) :=
  let (a, w) := st in
  let code := generate_code choice 6 in
  let expires := clock E (clock_reads w) + minutes 10 in
  let st1 := create_document_verification
               (StartVerificationRequest.phone req) code expires (a, tick w) in
  (Ok (StartVerificationRequest.phone req, code, expires), st1).

(** Returns [(token, user_id)]; [fresh_token] is what
    [secrets.token_urlsafe(32)] draws. *)
Definition verify_code (fresh_token : string)
    (req : VerifyCodeRequest.t) (st : Accounts * World)
  : Outcome (string * string) * (Accounts * World) :=
  let (a, w) := st in
  let records :=
    List.filter (fun v => String.eqb (Verification.phone v) (VerifyCodeRequest.phone req))
                (db_verification a) in
  match records with
  | [] => (Raise (HTTPException 400 "No verification started"), (a, w))
  | _ =>
      match latest_first records with
      | Raise e => (Raise e, (a, w))
      | Ok [] => (Raise OtherError, (a, w))
      | Ok (latest :: _) =>
          let (expired, w1) :=
            match Verification.expires_at latest with
            | Some e => (e <? clock E (clock_reads w), tick w)
            | None => (false, w)
            end in
          if expired then (Raise (HTTPException 400 "Code expired"), (a, w1))
          else if negb (String.eqb (Verification.code latest) (VerifyCodeRequest.code req))
          then (Raise (HTTPException 400 "Invalid code"), (a, w1))
          else
            let users :=
              List.filter (fun u => String.eqb (User.phone (snd u))
                                               (VerifyCodeRequest.phone req))
                          (db_user a) in
            let (uid, a1) :=
              match users with
              | user_doc :: _ => (str_oid (fst user_doc), a)
              | [] =>
                  create_document_user
                    (User.mk (VerifyCodeRequest.phone req)
                             (name_or_default (VerifyCodeRequest.name req))
                             (VerifyCodeRequest.photo_url req) None)
                    a
              end in
            let expires_at_ := clock E (clock_reads w1) + days 30 in
            (Ok (fresh_token, uid),
             (a1, add_session (mkSession uid fresh_token (Some expires_at_)) (tick w1)))
      end
  end.

End Accounts.

(** ** Contacts: [sync_contacts], [list_contacts] *)

(** A stored contact link. *)
Module Contact.
Record t := mk {
  user_id : string;
  contact_user_id : string;
  contact_name : option string;
  phone : string
}.
End Contact.

Module ContactSyncItem.
Record t := mk {
  name : option string;
  phone : string
}.
End ContactSyncItem.

(** The dict both handlers build for a user. *)
Module ContactInfo.
Record t := mk {
  user_id : string;
  name : string;
  phone : string;
  photo_url : option string
}.
End ContactInfo.

Definition contact_info (u : N * User.t) : ContactInfo.t :=
  ContactInfo.mk (str_oid (fst u)) (User.name (snd u)) (User.phone (snd u))
                 (User.photo_url (snd u)).

(** [get_documents("user", {"phone": {"$in": phones}})] followed by
    [{u["phone"]: u for u in existing_users}]: of several users with one
    phone number the dict keeps the last. *)
Definition by_phone (phones : list string) (a : Accounts) : gmap string (N * User.t) :=
  list_to_map
    (rev (map (fun u => (User.phone (snd u), u))
              (List.filter (fun u => existsb (String.eqb (User.phone (snd u))) phones)
                           (db_user a)))).

(** The loop of [sync_contacts]: for each contact whose phone number is in
    the dict, a link is stored and an entry added to the results. *)
Fixpoint sync_loop (uid : string) (known : gmap string (N * User.t))
    (contacts : list ContactSyncItem.t) (links : list Contact.t)
  : list Contact.t * list ContactInfo.t :=
  match contacts with
  | [] => (links, [])
  | c :: rest =>
      match known !! ContactSyncItem.phone c with
      | Some u =>
          let link := Contact.mk uid (str_oid (fst u)) (ContactSyncItem.name c)
                                 (ContactSyncItem.phone c) in
          let (links', results) := sync_loop uid known rest (links ++ [link]) in
          (links', contact_info u :: results)
      | None => sync_loop uid known rest links
      end
  end.

Section Contacts.

Variable E : Env.

(** Returns the list under "matched", with the contact collection and the
    world after the call. *)
Definition sync_contacts (token_ : string) (contacts : list ContactSyncItem.t)
    (a : Accounts) (links : list Contact.t) (w : World)
  : Outcome (list ContactInfo.t) * list Contact.t * World :=
  match require_user E (TokStr token_) w with
  | (Raise e, w1, _) => (Raise e, links, w1)
  | (Ok uid, w1, _) =>
      let phones := map ContactSyncItem.phone contacts in
      let (links', results) := sync_loop uid (by_phone phones a) contacts links in
      (Ok results, links', w1)
  end.

Definition list_contacts (token_ : string)
    (a : Accounts) (links : list Contact.t) (w : World)
  : Outcome (list ContactInfo.t) * World :=
  match require_user E (TokStr token_) w with
  | (Raise e, w1, _) => (Raise e, w1)
  | (Ok uid, w1, _) =>
      let contact_ids :=
        map Contact.contact_user_id
            (List.filter (fun l => String.eqb (Contact.user_id l) uid) links) in
      match contact_ids with
      | [] => (Ok [], w1)
      | _ =>
          match parse_ids contact_ids with
          | inl bad => (Raise (InvalidId bad), w1)
          | inr ids =>
              (Ok (map contact_info
                       (List.filter (fun u => existsb (N.eqb (fst u)) ids) (db_user a))),
               w1)
          end
      end
  end.

End Contacts.

(** The contacts of a request that the dict knows, each with its user. *)
Definition matched_pairs (known : gmap string (N * User.t))
    (contacts : list ContactSyncItem.t) : list (ContactSyncItem.t * (N * User.t)) :=
  omap (fun c => (fun u => (c, u)) <$> known !! ContactSyncItem.phone c) contacts.

(** The link stored for a matched contact. *)
Definition link_of (uid : string) (cu : ContactSyncItem.t * (N * User.t)) : Contact.t :=
  Contact.mk uid (str_oid (fst (snd cu))) (ContactSyncItem.name (fst cu))
             (ContactSyncItem.phone (fst cu)).

(** Some stored user has the phone number. *)
Definition registered (a : Accounts) (phone : string) : bool :=
  existsb (fun u => String.eqb (User.phone (snd u)) phone) (db_user a).

(** Two users, and one link of alice to bob. *)
Definition directory : Accounts :=
  mkAccounts []
    [(1%N, User.mk "+1" "Alice" None None); (2%N, User.mk "+2" "Bob" None None)].

Definition address_book : list ContactSyncItem.t :=
  [ContactSyncItem.mk (Some "Bobby") "+2"; ContactSyncItem.mk (Some "Nobody") "+9";
   ContactSyncItem.mk (Some "B. again") "+2"].

Definition is_digit (c : ascii) : bool :=
  ((48 <=? N_of_ascii c) && (N_of_ascii c <=? 57))%N.

(** The users with a phone number. *)
Definition users_with (phone : string) (a : Accounts) : list (N * User.t) :=
  List.filter (fun u => String.eqb (User.phone (snd u)) phone) (db_user a).

(** The verification records of a phone number. *)
Definition records_of (phone : string) (a : Accounts) : list Verification.t :=
  List.filter (fun v => String.eqb (Verification.phone v) phone) (db_verification a).

(** A phone number with one verification pending and no account yet. *)
Definition signup : Accounts * World :=
  (mkAccounts [Verification.mk "+100" "307418" (Some 600000100) 0 (Some 101)] [],
   deployment).

(** A store with three messages: two between alice and bob, the later one
    stored first, and one from alice to carol. *)
Definition chat : World :=
  mkWorld [mkSession "alice" "ta" (Some 1000);
           mkSession "bob" "tb" (Some 1000);
           mkSession "carol" "tc" (Some 1000)]
          (<[ 1%N := mkMessage "alice" "bob" (Some "hi") None None
                               read (Some 10) (Some 11) (Some 12) ]>
           (<[ 2%N := mkMessage "bob" "alice" (Some "hello?") None None
                                sent (Some 5) None None ]>
            {[ 3%N := mkMessage "alice" "carol" (Some "psst") None None
                                sent (Some 7) None None ]}))
          []
          0 0.

(** * Properties *)

(** ** The dict operations *)

Lemma dict_get_set_same k v d : dict_get k (dict_set k v d) = Some v.
Proof.
  induction d as [|[k' v'] d IH]; simpl.
  - now rewrite String.eqb_refl.
  - destruct (String.eqb k' k) eqn:Hk; simpl.
    + now rewrite String.eqb_refl.
    + now rewrite Hk.
Qed.

Lemma dict_get_set_other k k' v d :
  k <> k' -> dict_get k' (dict_set k v d) = dict_get k' d.
Proof.
  intros Hne. induction d as [|[k0 v0] d IH]; simpl.
  - destruct (String.eqb_spec k k'); congruence.
  - destruct (String.eqb_spec k0 k) as [->|Hk0]; simpl.
    + destruct (String.eqb_spec k k'); congruence.
    + destruct (String.eqb_spec k0 k'); congruence.
Qed.

Lemma dict_set_twice k v1 v2 d :
  dict_set k v2 (dict_set k v1 d) = dict_set k v2 d.
Proof.
  induction d as [|[k' v'] d IH]; simpl.
  - now rewrite String.eqb_refl.
  - destruct (String.eqb k' k) eqn:Hk; simpl.
    + now rewrite String.eqb_refl.
    + now rewrite Hk, IH.
Qed.

(** In a dict every stored item is what [get] finds under its key. *)
Lemma dict_get_item k v d :
  List.NoDup (map fst d) -> In (k, v) d -> dict_get k d = Some v.
Proof.
  induction d as [|[k' v'] d IH]; simpl; [tauto|].
  intros Hnd [Heq|Hin].
  - injection Heq as -> ->. now rewrite String.eqb_refl.
  - apply List.NoDup_cons_iff in Hnd as [Hnotin Hnd].
    destruct (String.eqb_spec k' k) as [->|Hne].
    + exfalso. apply Hnotin. now apply (in_map fst _ (k, v)).
    + now apply IH.
Qed.

Lemma dict_get_In k v d : dict_get k d = Some v -> In (k, v) d.
Proof.
  induction d as [|[k' v'] d IH]; simpl; [discriminate|].
  destruct (String.eqb_spec k' k) as [->|Hne].
  - intros [= ->]. now left.
  - intros H. right. now apply IH.
Qed.

Lemma dict_set_keys k v d :
  List.NoDup (map fst d) -> List.NoDup (map fst (dict_set k v d)).
Proof.
  induction d as [|[k' v'] d IH]; simpl.
  - intros _. constructor; [simpl; tauto | constructor].
  - intros Hnd. apply List.NoDup_cons_iff in Hnd as [Hnotin Hnd].
    destruct (String.eqb_spec k' k) as [->|Hne]; simpl.
    + now apply List.NoDup_cons_iff.
    + apply List.NoDup_cons_iff. split; [|now apply IH].
      intros Hin. apply in_map_iff in Hin as [[k0 v0] [Hk0 Hin]].
      simpl in Hk0. subst k0.
      assert (Hg : dict_get k' (dict_set k v d) = Some v0)
        by (apply dict_get_item; [now apply IH | exact Hin]).
      rewrite dict_get_set_other in Hg by congruence.
      apply Hnotin. apply dict_get_In in Hg.
      now apply (in_map fst _ (k', v0)).
Qed.

Lemma dict_get_pop_other k k' d :
  k <> k' -> dict_get k' (dict_pop k d) = dict_get k' d.
Proof.
  intros Hne. induction d as [|[k0 v0] d IH]; simpl; [easy|].
  destruct (String.eqb_spec k0 k) as [->|Hk0]; simpl.
  - destruct (String.eqb_spec k k'); congruence.
  - destruct (String.eqb_spec k0 k'); congruence.
Qed.

Lemma dict_get_pop_same k d :
  List.NoDup (map fst d) -> dict_get k (dict_pop k d) = None.
Proof.
  induction d as [|[k0 v0] d IH]; simpl; [easy|].
  intros Hnd. apply List.NoDup_cons_iff in Hnd as [Hnotin Hnd].
  destruct (String.eqb_spec k0 k) as [->|Hk0]; simpl.
  - destruct (dict_get k d) eqn:Hg; [|easy].
    exfalso. apply Hnotin. apply dict_get_In in Hg.
    now apply (in_map fst _ (k, w)).
  - destruct (String.eqb_spec k0 k); [congruence|]. now apply IH.
Qed.

(** The cleanup loop finds nothing when [ws] is registered for nobody. *)
Lemma deregister_absent ws d :
  List.NoDup (map fst d) ->
  (forall u, lookup_presence u d <> Some ws) -> deregister ws d = d.
Proof.
  intros Hnd Habs. unfold deregister.
  destruct (List.find (fun item => Nat.eqb (snd item) ws) d) as [[uid sock]|] eqn:Hf; [|reflexivity].
  apply find_some in Hf as [Hin Heq]. simpl in Heq.
  apply Nat.eqb_eq in Heq. subst sock.
  exfalso. apply (Habs uid). now apply dict_get_item.
Qed.

(** The cleanup loop leaves the entries of the other connections alone. *)
Lemma deregister_keeps_others ws d u c :
  List.NoDup (map fst d) ->
  lookup_presence u d = Some c -> c <> ws ->
  lookup_presence u (deregister ws d) = Some c.
Proof.
  intros Hnd Hu Hne. unfold deregister.
  destruct (List.find (fun item => Nat.eqb (snd item) ws) d) as [[uid sock]|] eqn:Hf; [|exact Hu].
  apply find_some in Hf as [Hin Heq]. simpl in Heq.
  apply Nat.eqb_eq in Heq. subst sock.
  unfold lookup_presence in *.
  rewrite dict_get_pop_other; [exact Hu|].
  intros ->. apply (dict_get_item _ _ _ Hnd) in Hin. congruence.
Qed.

(** The cleanup loop removes the entry of the connection it is run for. *)
Lemma deregister_removes ws d u :
  List.NoDup (map fst d) ->
  lookup_presence u d = Some ws ->
  (forall u', lookup_presence u' d = Some ws -> u' = u) ->
  lookup_presence u (deregister ws d) = None.
Proof.
  intros Hnd Hu Huniq. unfold deregister.
  destruct (List.find (fun item => Nat.eqb (snd item) ws) d) as [[uid sock]|] eqn:Hf.
  - apply find_some in Hf as [Hin Heq]. simpl in Heq.
    apply Nat.eqb_eq in Heq. subst sock.
    apply (dict_get_item _ _ _ Hnd) in Hin.
    rewrite (Huniq uid Hin). now apply dict_get_pop_same.
  - exfalso. apply dict_get_In in Hu.
    apply (find_none _ _ Hf) in Hu. simpl in Hu.
    now rewrite Nat.eqb_refl in Hu.
Qed.

(** C7. Presence Registry: registering user [U] with connection [C2] over
    an entry for [C1] leaves [C2], and only [C2], discoverable via
    lookup([U]); deregistering the displaced [C1] afterwards changes
    nothing and in particular keeps [C2]; in any registry, deregistering
    a connection keeps every entry that holds another connection. *)
Theorem presence_last_registration_wins
    (R : list (string * WebSocket)) (U : string) (C1 C2 : WebSocket) :
  List.NoDup (map fst R) ->
  C1 <> C2 ->
  (forall u, u <> U -> lookup_presence u R <> Some C1) ->
  let R2 := register U C2 (register U C1 R) in
  lookup_presence U R2 = Some C2
  /\ deregister C1 R2 = R2
  /\ lookup_presence U (deregister C1 R2) = Some C2
  /\ (forall ws u c,
        lookup_presence u R2 = Some c -> c <> ws ->
        lookup_presence u (deregister ws R2) = Some c).
Proof.
  intros Hnd Hne Hother R2.
  assert (HR2 : R2 = dict_set U C2 R) by apply dict_set_twice.
  assert (Hnd2 : List.NoDup (map fst R2)) by (rewrite HR2; now apply dict_set_keys).
  assert (Hget : lookup_presence U R2 = Some C2)
    by (rewrite HR2; apply dict_get_set_same).
  assert (Hnoop : deregister C1 R2 = R2).
  { apply deregister_absent; [exact Hnd2|].
    intros u Hu. destruct (String.eqb_spec U u) as [<-|Hu'].
    - rewrite Hget in Hu. congruence.
    - rewrite HR2 in Hu. unfold lookup_presence in Hu.
      rewrite dict_get_set_other in Hu by exact Hu'.
      apply (Hother u); [congruence | exact Hu]. }
  repeat split.
  - exact Hget.
  - exact Hnoop.
  - now rewrite Hnoop.
  - intros ws u c Hu Hc. now apply deregister_keeps_others.
Qed.

Lemma presence_last_registration_wins_witness :
  let R := [("bob", 1%nat); ("eve", 4%nat)] in
  let R2 := register "bob" 2%nat (register "bob" 1%nat R) in
  lookup_presence "bob" R2 = Some 2%nat
  /\ deregister 1%nat R2 = R2
  /\ lookup_presence "bob" (deregister 1%nat R2) = Some 2%nat
  /\ (forall ws u c,
        lookup_presence u R2 = Some c -> c <> ws ->
        lookup_presence u (deregister ws R2) = Some c).
Proof.
  apply (presence_last_registration_wins
           [("bob", 1%nat); ("eve", 4%nat)] "bob" 1%nat 2%nat).
  - apply List.NoDup_cons; [simpl; intros [H|[]]; discriminate H|].
    apply List.NoDup_cons; [simpl; tauto | apply List.NoDup_nil].
  - intros H; discriminate H.
  - intros u Hu. unfold lookup_presence. cbn [dict_get].
    destruct (String.eqb_spec "bob" u) as [Hb|Hb]; [congruence|].
    destruct (String.eqb "eve" u); intros Heq; discriminate Heq.
Defined.

(** ** Session validation *)

(** What [require_user] computes, case by case. *)
Lemma require_user_unfold E tok w :
  require_user E tok w =
  match List.filter (token_is tok) (db_session w) with
  | [] => (Raise (HTTPException 401 "Invalid token"), w, [])
  | session :: _ =>
      match expires_at session with
      | Some e =>
          if e <? clock E (clock_reads w)
          then (Raise (HTTPException 401 "Session expired"), tick w, [])
          else (Ok (user_id session), tick w, [])
      | None => (Ok (user_id session), w, [])
      end
  end.
Proof.
  unfold require_user, bind, get_documents_session, now_utc, ret, raise.
  destruct (List.filter (token_is tok) (db_session w)) as [|s l]; [reflexivity|].
  destruct (expires_at s) as [e|]; [|reflexivity].
  destruct (e <? clock E (clock_reads w)); reflexivity.
Qed.

(** The gate only reads: stored documents and presence are as before, no
    push is attempted, no effect is performed. *)
Lemma require_user_reads_only E tok w :
  db_session (world_of (require_user E tok w)) = db_session w
  /\ db_message (world_of (require_user E tok w)) = db_message w
  /\ active_connections (world_of (require_user E tok w)) = active_connections w
  /\ pushes (world_of (require_user E tok w)) = pushes w
  /\ trace_of (require_user E tok w) = [].
Proof.
  rewrite require_user_unfold.
  destruct (List.filter (token_is tok) (db_session w)) as [|s l]; [easy|].
  destruct (expires_at s) as [e|]; [|easy].
  destruct (e <? clock E (clock_reads w)); easy.
Qed.

(** C6, as the code has it.  No session with the token: 401 "Invalid
    token".  The first matching session expires strictly before the
    current time: 401 "Session expired".  Otherwise (it expires now or
    later, or carries no expiry) the user id of that session is returned.
    In all cases nothing is written: sessions, messages and presence are
    unchanged. *)
Theorem require_user_gate (E : Env) (tok : TokenValue) (w : World) :
  let r := require_user E tok w in
  let now := clock E (clock_reads w) in
  (List.filter (token_is tok) (db_session w) = [] ->
     outcome r = Raise (HTTPException 401 "Invalid token"))
  /\ (forall s rest e,
        List.filter (token_is tok) (db_session w) = s :: rest ->
        expires_at s = Some e -> e < now ->
        outcome r = Raise (HTTPException 401 "Session expired"))
  /\ (forall s rest e,
        List.filter (token_is tok) (db_session w) = s :: rest ->
        expires_at s = Some e -> now <= e ->
        outcome r = Ok (user_id s))
  /\ (forall s rest,
        List.filter (token_is tok) (db_session w) = s :: rest ->
        expires_at s = None ->
        outcome r = Ok (user_id s))
  /\ db_session (world_of r) = db_session w
  /\ db_message (world_of r) = db_message w
  /\ active_connections (world_of r) = active_connections w.
Proof.
  cbv zeta.
  split; [|split; [|split; [|split]]].
  - intros Hnone. rewrite require_user_unfold, Hnone. reflexivity.
  - intros s rest e Hs He Hlt. rewrite require_user_unfold, Hs, He.
    apply Z.ltb_lt in Hlt. now rewrite Hlt.
  - intros s rest e Hs He Hge. rewrite require_user_unfold, Hs, He.
    apply Z.ltb_ge in Hge. now rewrite Hge.
  - intros s rest Hs He. rewrite require_user_unfold, Hs, He. reflexivity.
  - pose proof (require_user_reads_only E tok w) as H. tauto.
Qed.

Lemma require_user_gate_witness :
  let E := mkEnv (fun _ => 100) (fun _ => true) in
  let w := mkWorld [mkSession "alice" "ta" (Some 500);
                    mkSession "bob" "tb" (Some 50)] ∅ [] 0 0 in
  outcome (require_user E (TokStr "tx") w) = Raise (HTTPException 401 "Invalid token")
  /\ outcome (require_user E (TokStr "tb") w) = Raise (HTTPException 401 "Session expired")
  /\ outcome (require_user E (TokStr "ta") w) = Ok "alice".
Proof.
  intros E w.
  split; [|split].
  - apply (require_user_gate E (TokStr "tx") w). reflexivity.
  - apply (proj1 (proj2 (require_user_gate E (TokStr "tb") w))
             (mkSession "bob" "tb" (Some 50)) [] 50); [reflexivity | reflexivity | ].
    simpl. lia.
  - apply (proj1 (proj2 (proj2 (require_user_gate E (TokStr "ta") w)))
             (mkSession "alice" "ta" (Some 500)) [] 500); [reflexivity | reflexivity | ].
    simpl. lia.
Defined.

(** C6, as stated, fails at the boundary: a session whose expiry equals
    the current time is not strictly in the future, yet the gate accepts
    it. *)
Lemma require_user_accepts_expiry_now :
  let E := mkEnv (fun _ => 100) (fun _ => true) in
  let w := mkWorld [mkSession "alice" "ta" (Some 100)] ∅ [] 0 0 in
  List.filter (token_is (TokStr "ta")) (db_session w) = [mkSession "alice" "ta" (Some 100)]
  /\ ~ (clock E (clock_reads w) < 100)
  /\ outcome (require_user E (TokStr "ta") w) = Ok "alice"
  /\ outcome (require_user E (TokStr "ta") w)
     <> Raise (HTTPException 401 "Session expired").
Proof.
  cbv zeta. split; [reflexivity|]. split; [simpl; lia|].
  split; [reflexivity|]. intros H; discriminate H.
Qed.

(** ** Read receipts *)

Lemma same_state_refl w : same_state w w.
Proof. now unfold same_state. Qed.

Lemma same_state_trans w1 w2 w3 :
  same_state w1 w2 -> same_state w2 w3 -> same_state w1 w3.
Proof. unfold same_state. intuition congruence. Qed.

Lemma same_state_tick w : same_state w (tick w).
Proof. now unfold same_state. Qed.

Lemma same_state_attempt w : same_state w (attempt w).
Proof. now unfold same_state. Qed.

Lemma require_user_same_state E tok w :
  same_state w (world_of (require_user E tok w)).
Proof.
  pose proof (require_user_reads_only E tok w) as H.
  unfold same_state. tauto.
Qed.

Lemma require_user_ok_inv E tok w uid :
  outcome (require_user E tok w) = Ok uid ->
  require_user E tok w = (Ok uid, world_of (require_user E tok w), []).
Proof.
  intros Ho.
  pose proof (require_user_reads_only E tok w) as (_ & _ & _ & _ & Ht).
  destruct (require_user E tok w) as [[o w1] t].
  unfold outcome, world_of, trace_of in *. simpl in *. now subst.
Qed.

(** One round of the notification loop. *)
Lemma notify_senders_cons E uid oid rest w :
  notify_senders E uid (oid :: rest) w =
  match db_message w !! oid with
  | None => notify_senders E uid rest w
  | Some m =>
      match lookup_presence (sender_id m) (active_connections w) with
      | None => notify_senders E uid rest w
      | Some ws =>
          if link_up E (pushes w) then
            match notify_senders E uid rest (attempt (tick w)) with
            | (o, w2, t2) =>
                (o, w2,
                 Pushed ws (EvRead (str_oid oid) (clock E (clock_reads w)) uid) :: t2)
            end
          else (Raise SendFailed, attempt (tick w), [])
      end
  end.
Proof.
  cbn [notify_senders]. unfold bind at 1. unfold find_one at 1.
  destruct (db_message w !! oid) as [m|].
  2:{ now destruct (notify_senders E uid rest w) as [[o w1] t1]. }
  unfold bind at 1. unfold connections_get at 1.
  destruct (lookup_presence (sender_id m) (active_connections w)) as [ws|].
  2:{ now destruct (notify_senders E uid rest w) as [[o w1] t1]. }
  unfold bind, now_utc, send_json. cbn [pushes tick].
  destruct (link_up E (pushes w)); [|reflexivity].
  now destruct (notify_senders E uid rest (attempt (tick w))) as [[o w1] t1].
Qed.

(** The notification loop reads the store and the registry and pushes; it
    writes neither, and the only exception it can raise is the one of a
    push that failed. *)
Lemma notify_senders_frame E uid ids :
  forall w,
    same_state w (world_of (notify_senders E uid ids w))
    /\ (outcome (notify_senders E uid ids w) = Ok tt
        \/ outcome (notify_senders E uid ids w) = Raise SendFailed)
    /\ ((forall n, link_up E n = true) ->
        outcome (notify_senders E uid ids w) = Ok tt).
Proof.
  induction ids as [|oid rest IH]; intros w.
  - simpl. unfold ret, outcome, world_of. simpl.
    split; [apply same_state_refl|]. split; [now left | reflexivity].
  - rewrite notify_senders_cons.
    destruct (db_message w !! oid) as [m|]; [|apply IH].
    destruct (lookup_presence (sender_id m) (active_connections w)) as [ws|];
      [|apply IH].
    destruct (link_up E (pushes w)) eqn:Hl0.
    + destruct (IH (attempt (tick w))) as (Hs & Ho & Hl).
      destruct (notify_senders E uid rest (attempt (tick w))) as [[o w1] t1].
      unfold outcome, world_of in *. simpl in *.
      split; [|auto].
      unfold same_state in *. simpl in *. tauto.
    + unfold outcome, world_of. simpl.
      split; [now unfold same_state|]. split; [now right|].
      intros Hl. rewrite Hl in Hl0. discriminate Hl0.
Qed.

(** The world and the answer of [mark_read] for a caller that passes the
    gate and ids that parse. *)
Lemma mark_read_unfold E req w uid ids :
  outcome (require_user E (TokStr (ReadReceiptRequest.token req)) w) = Ok uid ->
  parse_ids (ReadReceiptRequest.message_ids req) = inr ids ->
  let w1 := world_of (require_user E (TokStr (ReadReceiptRequest.token req)) w) in
  let t := clock E (clock_reads w1) in
  let w2 := with_message (after_read ids uid t) (tick w1) in
  mark_read E req w =
  match notify_senders E uid ids w2 with
  | (Ok _, w3, t3) => (Ok (length ids), w3, t3)
  | (Raise e, w3, t3) => (Raise e, w3, t3)
  end.
Proof.
  intros Hu Hp. cbv zeta.
  unfold mark_read. unfold bind at 1.
  rewrite (require_user_ok_inv _ _ _ _ Hu), Hp.
  unfold bind, now_utc, update_many, ret. cbn [app].
  unfold after_read.
  destruct (notify_senders E uid ids _) as [[[[]|e] w3] t3]; simpl;
    try rewrite app_nil_r; reflexivity.
Qed.

(** The stored messages after [mark_read], in the same case. *)
Lemma mark_read_messages E req w uid ids :
  outcome (require_user E (TokStr (ReadReceiptRequest.token req)) w) = Ok uid ->
  parse_ids (ReadReceiptRequest.message_ids req) = inr ids ->
  exists t,
    db_message (world_of (mark_read E req w))
    = after_read ids uid t (db_message w).
Proof.
  intros Hu Hp.
  pose proof (mark_read_unfold E req w uid ids Hu Hp) as Hm. cbv zeta in Hm.
  set (w1 := world_of (require_user E (TokStr (ReadReceiptRequest.token req)) w)) in *.
  exists (clock E (clock_reads w1)).
  set (w2 := with_message _ (tick w1)) in *.
  destruct (notify_senders_frame E uid ids w2) as ((_ & Hdb & _) & _).
  rewrite Hm.
  destruct (notify_senders E uid ids w2) as [[[[]|e] w3] t3];
    unfold world_of in *; simpl in *; rewrite Hdb; unfold w2; simpl;
    f_equal; apply (require_user_same_state E _ w).
Qed.

Lemma after_read_lookup ids uid t msgs oid :
  after_read ids uid t msgs !! oid =
  (fun m => if read_filter ids uid oid m then set_read t m else m) <$> msgs !! oid.
Proof.
  unfold after_read. rewrite map_lookup_imap.
  destruct (msgs !! oid); reflexivity.
Qed.

Lemma parse_ids_length l ids : parse_ids l = inr ids -> length ids = length l.
Proof.
  revert ids. induction l as [|i l IH]; simpl; intros ids.
  - now intros [= <-].
  - destruct (ObjectId i); [|discriminate].
    destruct (parse_ids l) as [bad|os]; [discriminate|].
    intros [= <-]. simpl. f_equal. now apply IH.
Qed.

Lemma parse_ids_bad l bad :
  parse_ids l = inl bad -> In bad l /\ ObjectId bad = None.
Proof.
  induction l as [|i l IH]; simpl; [discriminate|].
  destruct (ObjectId i) eqn:Hi.
  - destruct (parse_ids l) as [b|os]; [|discriminate].
    intros [= <-]. destruct (IH eq_refl). auto.
  - intros [= <-]. auto.
Qed.

Lemma parse_ids_malformed l i :
  In i l -> ObjectId i = None -> exists bad, parse_ids l = inl bad.
Proof.
  induction l as [|j l IH]; simpl; [tauto|].
  intros [->|Hin] Hi.
  - rewrite Hi. eauto.
  - destruct (ObjectId j); [|eauto].
    destruct (IH Hin Hi) as [bad ->]. eauto.
Qed.

(** [mark_read] on a list with a malformed id, for a caller that passes
    the gate: the comprehension raises before anything is written. *)
Lemma mark_read_bad_ids E req w uid bad :
  outcome (require_user E (TokStr (ReadReceiptRequest.token req)) w) = Ok uid ->
  parse_ids (ReadReceiptRequest.message_ids req) = inl bad ->
  mark_read E req w =
  (Raise (InvalidId bad),
   world_of (require_user E (TokStr (ReadReceiptRequest.token req)) w), []).
Proof.
  intros Hu Hp. unfold mark_read, bind.
  now rewrite (require_user_ok_inv _ _ _ _ Hu), Hp.
Qed.

(** The answer of [mark_read] is the length of the list it was given. *)
Lemma mark_read_answer E req w n :
  outcome (mark_read E req w) = Ok n ->
  n = length (ReadReceiptRequest.message_ids req).
Proof.
  intros Ho.
  destruct (outcome (require_user E (TokStr (ReadReceiptRequest.token req)) w))
    as [uid|e] eqn:Hu.
  - destruct (parse_ids (ReadReceiptRequest.message_ids req)) as [bad|ids] eqn:Hp.
    + rewrite (mark_read_bad_ids _ _ _ _ _ Hu Hp) in Ho. discriminate Ho.
    + pose proof (mark_read_unfold _ _ _ _ _ Hu Hp) as Hm. cbv zeta in Hm.
      rewrite Hm in Ho.
      destruct (notify_senders E uid ids _) as [[[[]|e] w3] t3];
        unfold outcome in Ho; simpl in Ho; [|discriminate Ho].
      injection Ho as <-. now apply parse_ids_length.
  - unfold mark_read, bind in Ho.
    destruct (require_user E (TokStr (ReadReceiptRequest.token req)) w)
      as [[[uid|e'] w1] t1]; unfold outcome in *; simpl in *; discriminate.
Qed.



(** C10. A read receipt takes a message straight from sent to read: for a
    stored message with status sent and no delivered_at whose recipient
    is the caller and whose id is in the list, afterwards the status is
    read, read_at is set and delivered_at is still null. *)
Theorem mark_read_skips_delivered
    (E : Env) (req : ReadReceiptRequest.t) (w : World)
    (uid : string) (ids : list N) (oid : N) (m : Message) :
  outcome (require_user E (TokStr (ReadReceiptRequest.token req)) w) = Ok uid ->
  parse_ids (ReadReceiptRequest.message_ids req) = inr ids ->
  In oid ids ->
  db_message w !! oid = Some m ->
  recipient_id m = uid ->
  status m = sent ->
  delivered_at m = None ->
  exists m' t,
    db_message (world_of (mark_read E req w)) !! oid = Some m'
    /\ status m' = read
    /\ read_at m' = Some t
    /\ delivered_at m' = None
    /\ m' = set_read t m.
Proof.
  intros Hu Hp Hin Hm Hrcp Hst Hdel.
  destruct (mark_read_messages _ _ _ _ _ Hu Hp) as [t Hdb].
  exists (set_read t m), t. rewrite Hdb, after_read_lookup, Hm. simpl.
  assert (Hf : read_filter ids uid oid m = true).
  { unfold read_filter. apply andb_true_iff. split.
    - apply existsb_exists. exists oid. split; [exact Hin | apply N.eqb_refl].
    - now apply String.eqb_eq. }
  rewrite Hf. auto.
Qed.


Lemma mark_read_skips_delivered_witness :
  exists m' t,
    db_message
      (world_of (mark_read env_up (ReadReceiptRequest.mk "tb" [id1]) deployment))
      !! 1%N = Some m'
    /\ status m' = read
    /\ read_at m' = Some t
    /\ delivered_at m' = None
    /\ m' = set_read t hi.
Proof.
  apply (mark_read_skips_delivered
           env_up (ReadReceiptRequest.mk "tb" [id1]) deployment "bob" [1%N] 1%N hi).
  - reflexivity.
  - reflexivity.
  - simpl. now left.
  - reflexivity.
  - reflexivity.
  - reflexivity.
  - reflexivity.
Defined.

(** C2, at a failing input.  Carol, with a valid token, sends a read
    receipt for a message addressed to bob: the filter matches no message
    and the store is unchanged, yet the answer is "updated": 1, the length
    of the list. *)
Theorem mark_read_counts_ids_not_updates :
  let r := mark_read env_up (ReadReceiptRequest.mk "tc" [id1]) deployment in
  outcome r = Ok 1%nat
  /\ size (updated_by [1%N] "carol" deployment) = 0%nat
  /\ db_message (world_of r) = db_message deployment.
Proof.
  cbv zeta. split; [reflexivity|]. split; vm_compute; reflexivity.
Qed.

(** C4, at a failing input.  The same receipt updates nothing (the
    message is bob's, not carol's), yet the loop finds the message by id
    alone and pushes a read event, naming carol as reader, to its sender
    alice, who is connected. *)
Theorem mark_read_notifies_for_untouched_message :
  let r := mark_read env_up (ReadReceiptRequest.mk "tc" [id1]) deployment in
  db_message deployment !! 1%N = Some hi
  /\ recipient_id hi <> "carol"
  /\ db_message (world_of r) !! 1%N = Some hi
  /\ lookup_presence (sender_id hi) (active_connections deployment) = Some 5%nat
  /\ trace_of r = [Pushed 5%nat (EvRead id1 102 "carol")].
Proof.
  cbv zeta. split; [reflexivity|]. split; [intros H; discriminate H|].
  split; [vm_compute; reflexivity|]. split; reflexivity.
Qed.

(** C8, as stated, fails: with a valid token and the malformed id "abc"
    the handler raises [InvalidId], which no handler catches; the answer
    is a 500, not a client error. *)
Lemma mark_read_malformed_id_is_server_error :
  let r := mark_read env_up (ReadReceiptRequest.mk "tb" ["abc"]) deployment in
  ObjectId "abc" = None
  /\ outcome r = Raise (InvalidId "abc")
  /\ http_status (outcome r) = 500%nat
  /\ client_error (outcome r) = false.
Proof. cbv zeta. repeat split; reflexivity. Qed.

(** The comprehension stops at the first id of the list that does not
    parse: every id before it parses. *)
Lemma parse_ids_first_bad l bad :
  parse_ids l = inl bad ->
  exists pre post,
    l = pre ++ bad :: post
    /\ (forall s, In s pre -> is_Some (ObjectId s))
    /\ ObjectId bad = None.
Proof.
  induction l as [|i l IH]; simpl; [discriminate|].
  destruct (ObjectId i) as [o|] eqn:Hi.
  - destruct (parse_ids l) as [b|os]; [|discriminate].
    intros [= <-]. destruct (IH eq_refl) as (pre & post & -> & Hpre & Hbad).
    exists (i :: pre), post. split; [reflexivity|]. split; [|exact Hbad].
    intros s [<-|Hs]; [rewrite Hi; eauto | now apply Hpre].
  - intros [= <-]. exists [], l. split; [reflexivity|]. split; [|exact Hi].
    intros s [].
Qed.

(** C8, as the code has it.  For a caller that passes the gate and a list
    holding a malformed id, [mark_read] raises [InvalidId] for the first
    malformed id of the list (every id before it in the list parses); the
    exception is not handled, so the answer is a server error (500), not
    a client error; no message is modified and nothing is pushed. *)
Theorem mark_read_malformed_id_unhandled
    (E : Env) (req : ReadReceiptRequest.t) (w : World) (uid i : string) :
  outcome (require_user E (TokStr (ReadReceiptRequest.token req)) w) = Ok uid ->
  In i (ReadReceiptRequest.message_ids req) ->
  ObjectId i = None ->
  let r := mark_read E req w in
  exists pre bad post,
    ReadReceiptRequest.message_ids req = pre ++ bad :: post
    /\ (forall s, In s pre -> is_Some (ObjectId s))
    /\ ObjectId bad = None
    /\ outcome r = Raise (InvalidId bad)
    /\ http_status (outcome r) = 500%nat
    /\ client_error (outcome r) = false
    /\ same_state w (world_of r)
    /\ trace_of r = [].
Proof.
  intros Hu Hin Hi r.
  destruct (parse_ids_malformed _ _ Hin Hi) as [bad Hp].
  destruct (parse_ids_first_bad _ _ Hp) as (pre & post & Hl & Hpre & Hbad).
  exists pre, bad, post. unfold r. rewrite (mark_read_bad_ids _ _ _ _ _ Hu Hp).
  unfold outcome, world_of, trace_of. simpl.
  repeat split; try assumption; apply (require_user_same_state E _ w).
Qed.

Lemma mark_read_malformed_id_unhandled_witness :
  exists pre bad post,
    [id1; "abc"; "xyz"] = pre ++ bad :: post
    /\ (forall s, In s pre -> is_Some (ObjectId s))
    /\ ObjectId bad = None
    /\ outcome (mark_read env_up (ReadReceiptRequest.mk "tb" [id1; "abc"; "xyz"])
                  deployment)
       = Raise (InvalidId bad)
    /\ http_status
         (outcome (mark_read env_up (ReadReceiptRequest.mk "tb" [id1; "abc"; "xyz"])
                     deployment))
       = 500%nat
    /\ client_error
         (outcome (mark_read env_up (ReadReceiptRequest.mk "tb" [id1; "abc"; "xyz"])
                     deployment))
       = false
    /\ same_state deployment
         (world_of (mark_read env_up (ReadReceiptRequest.mk "tb" [id1; "abc"; "xyz"])
                      deployment))
    /\ trace_of (mark_read env_up (ReadReceiptRequest.mk "tb" [id1; "abc"; "xyz"])
                   deployment) = [].
Proof.
  apply (mark_read_malformed_id_unhandled
           env_up (ReadReceiptRequest.mk "tb" [id1; "abc"; "xyz"]) deployment
           "bob" "xyz").
  - reflexivity.
  - simpl. right. right. now left.
  - reflexivity.
Defined.

(** ** Sending *)

(** [send_message] up to its await, for a sender that passes the gate. *)
Lemma send_message_dispatch_unfold E req w sender :
  outcome (require_user E (TokStr (SendMessageRequest.token req)) w) = Ok sender ->
  let w1 := world_of (require_user E (TokStr (SendMessageRequest.token req)) w) in
  let t := clock E (clock_reads w1) in
  let oid := fresh (dom (db_message w)) in
  let msg := mkMessage sender (SendMessageRequest.recipient_id req)
                       (SendMessageRequest.text req)
                       (SendMessageRequest.ciphertext req)
                       (SendMessageRequest.nonce req)
                       sent (Some t) None None in
  send_message_dispatch E req w =
  (Ok (str_oid oid,
       match lookup_presence (SendMessageRequest.recipient_id req)
                             (active_connections w) with
       | Some ws =>
           Some (ws, EvMessage (str_oid oid) sender
                               (SendMessageRequest.recipient_id req)
                               (SendMessageRequest.text req)
                               (SendMessageRequest.ciphertext req)
                               (SendMessageRequest.nonce req) (Some t))
       | None => None
       end),
   with_message (insert oid msg) (tick w1), []).
Proof.
  intros Hu. cbv zeta.
  destruct (require_user_same_state E (TokStr (SendMessageRequest.token req)) w)
    as (_ & Hdb & Hac).
  unfold send_message_dispatch. unfold bind at 1.
  rewrite (require_user_ok_inv _ _ _ _ Hu).
  unfold bind, now_utc, create_document_message, connections_get, ret.
  cbn [app with_message tick db_message active_connections].
  rewrite Hdb, Hac.
  destruct (lookup_presence _ (active_connections w)); reflexivity.
Qed.

(** C3, as stated, fails: bob sends to alice, who is connected, and the
    push fails; the exception of [send_json] leaves the handler, so bob
    gets a 500 and no message id. *)
Lemma send_message_push_failure_surfaces :
  let r := send_message env_down
             (SendMessageRequest.mk "tb" "alice" (Some "yo") None None) deployment in
  lookup_presence "alice" (active_connections deployment) = Some 5%nat
  /\ outcome r = Raise SendFailed
  /\ http_status (outcome r) = 500%nat
  /\ (forall msg_id, outcome r <> Ok msg_id).
Proof.
  cbv zeta. split; [reflexivity|]. split; [reflexivity|]. split; [reflexivity|].
  intros msg_id H. discriminate H.
Qed.

(** C3, as the code has it.  For a sender that passes the gate and a
    recipient present in the registry, a failing push leaves the message
    stored with status sent and no delivered_at, and every other message
    as it was; the failure is not swallowed: the exception leaves
    [send_message], which answers with a server error and no message
    id. *)
Theorem send_message_push_failure
    (E : Env) (req : SendMessageRequest.t) (w : World)
    (sender : string) (ws : WebSocket) :
  outcome (require_user E (TokStr (SendMessageRequest.token req)) w) = Ok sender ->
  lookup_presence (SendMessageRequest.recipient_id req) (active_connections w)
    = Some ws ->
  link_up E (pushes w) = false ->
  let r := send_message E req w in
  let oid := fresh (dom (db_message w)) in
  outcome r = Raise SendFailed
  /\ http_status (outcome r) = 500%nat
  /\ trace_of r = []
  /\ db_message w !! oid = None
  /\ (exists m,
        db_message (world_of r) !! oid = Some m
        /\ status m = sent
        /\ delivered_at m = None
        /\ sender_id m = sender
        /\ recipient_id m = SendMessageRequest.recipient_id req)
  /\ (forall k, k <> oid -> db_message (world_of r) !! k = db_message w !! k).
Proof.
  intros Hu Hws Hdown r oid.
  pose proof (send_message_dispatch_unfold E req w sender Hu) as Hd.
  cbv zeta in Hd. rewrite Hws in Hd.
  destruct (require_user_reads_only E (TokStr (SendMessageRequest.token req)) w)
    as (_ & _ & _ & Hpush & _).
  assert (Hr : r = (Raise SendFailed,
                    attempt (with_message
                      (insert oid
                         (mkMessage sender (SendMessageRequest.recipient_id req)
                            (SendMessageRequest.text req)
                            (SendMessageRequest.ciphertext req)
                            (SendMessageRequest.nonce req) sent
                            (Some (clock E (clock_reads
                               (world_of (require_user E
                                  (TokStr (SendMessageRequest.token req)) w)))))
                            None None))
                      (tick (world_of (require_user E
                                  (TokStr (SendMessageRequest.token req)) w)))),
                    [])).
  { unfold r, send_message. unfold bind at 1. rewrite Hd.
    unfold bind, send_json. cbn [pushes with_message tick].
    rewrite Hpush, Hdown. reflexivity. }
  destruct (require_user_same_state E (TokStr (SendMessageRequest.token req)) w)
    as (_ & Hdb & _).
  rewrite Hr. unfold outcome, world_of, trace_of in *.
  cbn [fst snd http_status attempt with_message tick db_message].
  rewrite Hdb.
  split; [reflexivity|]. split; [reflexivity|]. split; [reflexivity|].
  split; [|split].
  - apply not_elem_of_dom. apply is_fresh.
  - eexists. split; [apply lookup_insert_eq|]. simpl. auto.
  - intros k Hk. now apply lookup_insert_ne.
Qed.

Lemma send_message_push_failure_witness :
  outcome (send_message env_down
             (SendMessageRequest.mk "tb" "alice" (Some "yo") None None) deployment)
  = Raise SendFailed.
Proof.
  apply (send_message_push_failure
           env_down (SendMessageRequest.mk "tb" "alice" (Some "yo") None None)
           deployment "bob" 5%nat).
  - reflexivity.
  - reflexivity.
  - reflexivity.
Defined.

(** The delivered-transition is applied whatever the stored status is. *)
Lemma send_message_delivered_overwrites E msg_id oid w m :
  ObjectId msg_id = Some oid ->
  db_message w !! oid = Some m ->
  db_message (world_of (send_message_delivered E msg_id w)) !! oid
  = Some (set_delivered (clock E (clock_reads w)) m).
Proof.
  intros Hid Hm. unfold send_message_delivered. rewrite Hid.
  unfold bind, now_utc, update_one, ret, world_of. simpl.
  now rewrite lookup_alter_eq, Hm.
Qed.

(** A read receipt never lowers the status of a stored message. *)
Lemma mark_read_never_regresses E req w oid m :
  db_message w !! oid = Some m ->
  exists m',
    db_message (world_of (mark_read E req w)) !! oid = Some m'
    /\ (rank (status m) <= rank (status m'))%nat.
Proof.
  intros Hm.
  destruct (outcome (require_user E (TokStr (ReadReceiptRequest.token req)) w))
    as [uid|e] eqn:Hu.
  - destruct (parse_ids (ReadReceiptRequest.message_ids req)) as [bad|ids] eqn:Hp.
    + rewrite (mark_read_bad_ids _ _ _ _ _ Hu Hp). unfold world_of at 1. simpl.
      destruct (require_user_same_state E (TokStr (ReadReceiptRequest.token req)) w)
        as (_ & -> & _).
      eauto.
    + destruct (mark_read_messages _ _ _ _ _ Hu Hp) as [t ->].
      rewrite after_read_lookup, Hm. simpl. eexists. split; [reflexivity|].
      destruct (read_filter ids uid oid m); simpl; [|lia].
      destruct (status m); simpl; lia.
  - exists m. split; [|lia].
    pose proof (require_user_same_state E (TokStr (ReadReceiptRequest.token req)) w)
      as (_ & Hdb & _).
    unfold mark_read, bind.
    destruct (require_user E (TokStr (ReadReceiptRequest.token req)) w)
      as [[[uid|e'] w1] t1]; unfold outcome, world_of in *; simpl in *;
      [discriminate Hu|]. now rewrite Hdb.
Qed.

(** C1, at a failing interleaving.  Alice sends to bob, who is connected:
    the message is stored as sent and the handler suspends at its push.
    Bob's read receipt for that message runs meanwhile and marks it read.
    The send then resumes and its update writes delivered over read: the
    status has moved backwards. *)
Theorem delivered_update_downgrades_read :
  let receipt := MarkRead (ReadReceiptRequest.mk "tb" [id2]) in
  let s0 := mkSys deployment_bob [] in
  let s1 := sys_run env_up [SendStart yo] s0 in
  let s2 := sys_run env_up [SendStart yo; receipt] s0 in
  let s3 := sys_run env_up [SendStart yo; receipt; SendResume] s0 in
  status_of deployment_bob 2%N = None
  /\ status_of (sys_world s1) 2%N = Some sent
  /\ map fst (pending s1) = [(id2, 7%nat)]
  /\ status_of (sys_world s2) 2%N = Some read
  /\ status_of (sys_world s3) 2%N = Some delivered
  /\ (rank delivered < rank read)%nat.
Proof.
  cbv zeta. repeat split; try (vm_compute; reflexivity).
Qed.

(** ** The connection handler *)

Lemma deregistrations_app ws t1 t2 :
  deregistrations ws (t1 ++ t2)
  = (deregistrations ws t1 + deregistrations ws t2)%nat.
Proof.
  unfold deregistrations. now rewrite List.filter_app, List.length_app.
Qed.

(** The first frame carries a token: gate, registration, confirmation;
    a failure of either runs the cleanup. *)
Lemma ws_resume_first_frame E ws tok w :
  let w1 := world_of (require_user E tok w) in
  ws_resume E ws Connecting (FrameJson tok) w =
  match outcome (require_user E tok w) with
  | Ok uid =>
      let w2 := attempt (with_connections (register uid ws) w1) in
      if link_up E (pushes w) then
        (Ok Authenticated, w2, [Registered uid ws; Pushed ws (EvConnected uid)])
      else
        (Ok Closed, with_connections (deregister ws) w2,
         [Registered uid ws; Deregistered ws])
  | Raise _ =>
      (Ok Closed, with_connections (deregister ws) w1, [Deregistered ws])
  end.
Proof.
  cbv zeta.
  destruct (require_user_reads_only E tok w) as (_ & _ & _ & Hpush & Htr).
  unfold ws_resume, or_close, authenticate, cleanup, do_register, send_json.
  unfold bind, ret.
  destruct (require_user E tok w) as [[[uid|e] w1] t1];
    unfold outcome, world_of, trace_of in *; simpl in *; subst t1.
  - rewrite Hpush. destruct (link_up E (pushes w)); reflexivity.
  - reflexivity.
Qed.

(** One resumption of an accepted connection: it stays accepted, a
    closed handler stays closed and does nothing, an exit closes it, and
    the cleanup has run in this resumption exactly when it closed the
    handler. *)
Lemma ws_resume_step E ws ph k w :
  accepted ph = true ->
  exists ph1 w1 t1,
    ws_resume E ws ph k w = (Ok ph1, w1, t1)
    /\ accepted ph1 = true
    /\ (is_closed ph = true -> ph1 = Closed /\ t1 = [])
    /\ (is_exit k = true -> ph1 = Closed)
    /\ (deregistrations ws t1 + (if is_closed ph then 1 else 0)
        = if is_closed ph1 then 1 else 0)%nat.
Proof.
  intros Hacc.
  destruct ph; try discriminate Hacc.
  - (* Connecting *)
    destruct k.
    + do 3 eexists. split; [reflexivity|]. simpl. intuition discriminate.
    + pose proof (ws_resume_first_frame E ws tok w) as Hf. cbv zeta in Hf.
      rewrite Hf.
      destruct (outcome (require_user E tok w)) as [uid|e].
      * destruct (link_up E (pushes w)); do 3 eexists;
          (split; [reflexivity|]); unfold deregistrations; simpl;
          rewrite ?Nat.eqb_refl; simpl; intuition discriminate.
      * do 3 eexists. split; [reflexivity|]. unfold deregistrations. simpl.
        rewrite Nat.eqb_refl. simpl. intuition discriminate.
    + do 3 eexists. split; [reflexivity|]. unfold deregistrations. simpl.
      rewrite Nat.eqb_refl. simpl. intuition discriminate.
    + do 3 eexists. split; [reflexivity|]. unfold deregistrations. simpl.
      rewrite Nat.eqb_refl. simpl. intuition discriminate.
    + do 3 eexists. split; [reflexivity|]. unfold deregistrations. simpl.
      rewrite Nat.eqb_refl. simpl. intuition discriminate.
  - (* Authenticated *)
    destruct k; do 3 eexists; (split; [reflexivity|]);
      unfold deregistrations; simpl; rewrite ?Nat.eqb_refl; simpl;
      intuition discriminate.
  - (* Closed *)
    do 3 eexists. split; [reflexivity|]. unfold deregistrations. simpl.
    intuition discriminate.
Qed.

(** The life of an accepted connection, whatever the other tasks do in
    between. *)
Lemma ws_run_accounting E ws script :
  forall ph w,
    accepted ph = true ->
    let r := ws_run E ws ph script w in
    accepted (fst (fst r)) = true
    /\ (is_closed ph = true -> fst (fst r) = Closed /\ snd r = [])
    /\ (existsb is_exit (map snd script) = true -> fst (fst r) = Closed)
    /\ (deregistrations ws (snd r) + (if is_closed ph then 1 else 0)
        = if is_closed (fst (fst r)) then 1 else 0)%nat.
Proof.
  induction script as [|[others k] rest IH]; intros ph w Hacc; cbv zeta.
  - simpl. split; [exact Hacc|]. split; [|split; [discriminate|reflexivity]].
    intros Hc. destruct ph; try discriminate Hc. now split.
  - cbn [ws_run map snd existsb].
    destruct (ws_resume_step E ws ph k (others w) Hacc)
      as (ph1 & w1 & t1 & -> & Hacc1 & Hcl1 & Hex1 & Hn1).
    specialize (IH ph1 w1 Hacc1). cbv zeta in IH.
    destruct IH as (Hacc2 & Hcl2 & Hex2 & Hn2).
    destruct (ws_run E ws ph1 rest w1) as [[ph2 w2] t2]. simpl in *.
    split; [exact Hacc2|]. split; [|split].
    + intros Hc. destruct (Hcl1 Hc) as [-> ->].
      destruct (Hcl2 eq_refl) as [-> ->]. auto.
    + intros Hex. apply orb_true_iff in Hex as [Hex|Hex].
      * rewrite (Hex1 Hex) in Hcl2. now destruct (Hcl2 eq_refl).
      * now apply Hex2.
    + rewrite deregistrations_app. lia.
Qed.

(** Once [accept] has returned the handler is at its first
    [receive_json]. *)
Lemma websocket_endpoint_accepted E ws first script w :
  websocket_endpoint E ws ((first, AcceptDone) :: script) w
  = ws_run E ws Connecting script (first w).
Proof.
  unfold websocket_endpoint. cbn [ws_run ws_resume]. unfold ret.
  now destruct (ws_run E ws Connecting script (first w)) as [[ph2 w2] t2].
Qed.

(** [accept] is awaited before the [try]: when it raises, the exception
    leaves the handler and the cleanup does not run (nothing had been
    registered). *)
Lemma websocket_endpoint_accept_fails E ws first script w :
  exists w',
    websocket_endpoint E ws ((first, Failure) :: script) w = (Aborted, w', []).
Proof.
  unfold websocket_endpoint. cbn [ws_run ws_resume]. unfold ret.
  assert (H : forall sc w0, exists w', ws_run E ws Aborted sc w0 = (Aborted, w', [])).
  { induction sc as [|[o k] sc IH]; intros w0; cbn [ws_run ws_resume]; [eauto|].
    unfold ret. destruct (IH (o w0)) as [w' ->]. eauto. }
  destruct (H script (first w)) as [w' ->]. eauto.
Qed.

(** *** The registry along the life of a connection *)

Lemma dict_pop_keys k d :
  List.NoDup (map fst d) -> List.NoDup (map fst (dict_pop k d)).
Proof.
  induction d as [|[k' v'] d IH]; simpl; [easy|].
  intros Hnd. apply List.NoDup_cons_iff in Hnd as [Hnotin Hnd].
  destruct (String.eqb_spec k' k) as [->|Hne]; simpl; [exact Hnd|].
  apply List.NoDup_cons_iff. split; [|now apply IH].
  intros Hin. apply in_map_iff in Hin as [[k0 v0] [Hk0 Hin]].
  simpl in Hk0. subst k0.
  assert (Hg : dict_get k' (dict_pop k d) = Some v0)
    by (apply dict_get_item; [now apply IH | exact Hin]).
  rewrite dict_get_pop_other in Hg by congruence.
  apply Hnotin. apply dict_get_In in Hg.
  now apply (in_map fst _ (k', v0)).
Qed.

Lemma deregister_keys ws d :
  List.NoDup (map fst d) -> List.NoDup (map fst (deregister ws d)).
Proof.
  intros Hnd. unfold deregister.
  destruct (List.find (fun item => Nat.eqb (snd item) ws) d) as [[uid sock]|];
    [now apply dict_pop_keys | exact Hnd].
Qed.

(** The cleanup loop as a map: the entry of [ws] is gone, every other
    entry is as before, and no entry is added. *)
Lemma deregister_lookup ws d u :
  List.NoDup (map fst d) ->
  held_at_most_once ws d ->
  lookup_presence u (deregister ws d) = without ws d u.
Proof.
  intros Hnd Hone. unfold deregister, without.
  destruct (List.find (fun item => Nat.eqb (snd item) ws) d) as [[uid sock]|] eqn:Hf.
  - apply find_some in Hf as [Hin Heq]. simpl in Heq.
    apply Nat.eqb_eq in Heq. subst sock.
    apply (dict_get_item _ _ _ Hnd) in Hin.
    destruct (String.eqb_spec uid u) as [<-|Hne].
    + unfold lookup_presence. rewrite dict_get_pop_same by exact Hnd.
      now rewrite Hin, Nat.eqb_refl.
    + unfold lookup_presence. rewrite dict_get_pop_other by exact Hne.
      destruct (dict_get u d) as [c|] eqn:Hu; [|reflexivity].
      destruct (Nat.eqb_spec c ws) as [->|Hc]; [|reflexivity].
      exfalso. apply Hne. now apply Hone.
  - unfold lookup_presence.
    destruct (dict_get u d) as [c|] eqn:Hu; [|reflexivity].
    destruct (Nat.eqb_spec c ws) as [->|Hc]; [|reflexivity].
    apply dict_get_In in Hu. apply (find_none _ _ Hf) in Hu. simpl in Hu.
    now rewrite Nat.eqb_refl in Hu.
Qed.

(** After the cleanup loop nobody holds the connection. *)
Lemma deregister_clears ws d :
  List.NoDup (map fst d) ->
  held_at_most_once ws d ->
  held_by_nobody ws (deregister ws d).
Proof.
  intros Hnd Hone u. rewrite deregister_lookup by assumption.
  unfold without. destruct (lookup_presence u d) as [c|]; [|discriminate].
  destruct (Nat.eqb_spec c ws) as [->|Hc]; [discriminate|].
  intros [= Heq]. contradiction.
Qed.

Lemma held_by_nobody_at_most_once ws d :
  held_by_nobody ws d -> held_at_most_once ws d.
Proof. intros Hno u1 u2 H1 _. now apply Hno in H1. Qed.

(** The registration makes the user the one holder of the connection. *)
Lemma register_holds_once ws uid d :
  held_by_nobody ws d -> held_at_most_once ws (register uid ws d).
Proof.
  intros Hno u1 u2 H1 H2. unfold lookup_presence, register in *.
  destruct (String.eqb_spec uid u1) as [<-|Hn1];
    destruct (String.eqb_spec uid u2) as [<-|Hn2]; try reflexivity.
  - rewrite dict_get_set_other in H2 by exact Hn2. now apply Hno in H2.
  - rewrite dict_get_set_other in H1 by exact Hn1. now apply Hno in H1.
  - rewrite dict_get_set_other in H1 by exact Hn1. now apply Hno in H1.
Qed.

(** An exit of the awaited call, before the first frame or in the read
    loop: the handler runs the cleanup and returns. *)
Lemma ws_resume_exit E ws ph k w :
  accepted ph = true -> is_closed ph = false -> is_exit k = true ->
  ws_resume E ws ph k w
  = (Ok Closed, with_connections (deregister ws) w, [Deregistered ws]).
Proof.
  intros Hacc Hcl Hex.
  destruct ph; try discriminate Hacc; try discriminate Hcl;
    destruct k; try discriminate Hex; reflexivity.
Qed.

(** One resumption keeps the registry a dict and keeps the connection in
    it only between its registration and its cleanup. *)
Lemma ws_resume_registry E ws ph k w :
  accepted ph = true ->
  List.NoDup (map fst (active_connections w)) ->
  holders_ok ws ph (active_connections w) ->
  exists ph1 w1 t1,
    ws_resume E ws ph k w = (Ok ph1, w1, t1)
    /\ accepted ph1 = true
    /\ List.NoDup (map fst (active_connections w1))
    /\ holders_ok ws ph1 (active_connections w1).
Proof.
  intros Hacc Hnd Hok.
  assert (Hcleanup : forall d,
             List.NoDup (map fst d) -> held_at_most_once ws d ->
             List.NoDup (map fst (deregister ws d))
             /\ holders_ok ws Closed (deregister ws d)).
  { intros d Hd Hone. split; [now apply deregister_keys | now apply deregister_clears]. }
  destruct ph; try discriminate Hacc.
  - (* Connecting *)
    cbn [holders_ok] in Hok.
    pose proof (held_by_nobody_at_most_once _ _ Hok) as Hone.
    destruct k.
    + do 3 eexists. split; [reflexivity|]. auto.
    + pose proof (ws_resume_first_frame E ws tok w) as Hf. cbv zeta in Hf.
      rewrite Hf. clear Hf.
      destruct (require_user_same_state E tok w) as (_ & _ & Hac).
      destruct (outcome (require_user E tok w)) as [uid|e].
      * assert (Hnd2 : List.NoDup
                         (map fst (register uid ws (active_connections w))))
          by now apply dict_set_keys.
        pose proof (register_holds_once ws uid _ Hok) as Hone2.
        destruct (link_up E (pushes w)); do 3 eexists;
          (split; [reflexivity|]); (split; [reflexivity|]);
          cbn [active_connections with_connections attempt]; rewrite Hac.
        -- split; [exact Hnd2 | exact Hone2].
        -- now apply Hcleanup.
      * do 3 eexists. split; [reflexivity|]. split; [reflexivity|].
        cbn [active_connections with_connections]. rewrite Hac.
        now apply Hcleanup.
    + do 3 eexists. split; [reflexivity|]. split; [reflexivity|].
      now apply Hcleanup.
    + do 3 eexists. split; [reflexivity|]. split; [reflexivity|].
      now apply Hcleanup.
    + do 3 eexists. split; [reflexivity|]. split; [reflexivity|].
      now apply Hcleanup.
  - (* Authenticated *)
    cbn [holders_ok] in Hok.
    destruct k; do 3 eexists; (split; [reflexivity|]); (split; [reflexivity|]);
      try (split; [exact Hnd | exact Hok]); now apply Hcleanup.
  - (* Closed *)
    do 3 eexists. split; [reflexivity|]. auto.
Qed.

(** The same along the life of the connection, when the other tasks do
    not store the connection. *)
Lemma ws_run_registry E ws script :
  forall ph w,
    accepted ph = true ->
    Forall (fun step => leaves_alone ws (fst step)) script ->
    List.NoDup (map fst (active_connections w)) ->
    holders_ok ws ph (active_connections w) ->
    let r := ws_run E ws ph script w in
    List.NoDup (map fst (active_connections (snd (fst r))))
    /\ holders_ok ws (fst (fst r)) (active_connections (snd (fst r))).
Proof.
  induction script as [|[others k] rest IH]; intros ph w Hacc Hall Hnd Hok; cbv zeta.
  - simpl. auto.
  - apply List.Forall_cons_iff in Hall as [Ho Hall]. simpl in Ho.
    destruct (Ho w Hnd) as [Hnd' Hheld].
    assert (Hok' : holders_ok ws ph (active_connections (others w))).
    { destruct ph; cbn [holders_ok] in *;
        try (intros u Hu; apply (Hok u); now apply Hheld).
      intros u1 u2 H1 H2. apply Hok; now apply Hheld. }
    cbn [ws_run].
    destruct (ws_resume_registry E ws ph k (others w) Hacc Hnd' Hok')
      as (ph1 & w1 & t1 & -> & Hacc1 & Hnd1 & Hok1).
    specialize (IH ph1 w1 Hacc1 Hall Hnd1 Hok1). cbv zeta in IH.
    destruct (ws_run E ws ph1 rest w1) as [[ph2 w2] t2]. exact IH.
Qed.

(** The handler of another connection does not store this one. *)
Lemma other_handler_leaves_alone E ws ws' ph k :
  ws' <> ws ->
  leaves_alone ws (fun w => world_of (ws_resume E ws' ph k w)).
Proof.
  intros Hne w Hnd.
  assert (Hsame : List.NoDup (map fst (active_connections w))
                  /\ (forall u, lookup_presence u (active_connections w) = Some ws ->
                                lookup_presence u (active_connections w) = Some ws))
    by auto.
  assert (Hdereg : forall d,
             List.NoDup (map fst d) ->
             List.NoDup (map fst (deregister ws' d))
             /\ (forall u, lookup_presence u (deregister ws' d) = Some ws ->
                           lookup_presence u d = Some ws)).
  { intros d Hd. split; [now apply deregister_keys|].
    intros u Hu. unfold deregister in Hu.
    destruct (List.find (fun item => Nat.eqb (snd item) ws') d)
      as [[uid sock]|] eqn:Hf; [|exact Hu].
    unfold lookup_presence in *.
    destruct (String.eqb_spec uid u) as [<-|Hn].
    - rewrite dict_get_pop_same in Hu by exact Hd. discriminate Hu.
    - now rewrite dict_get_pop_other in Hu by exact Hn. }
  assert (Hreg : forall uid d,
             List.NoDup (map fst d) ->
             List.NoDup (map fst (register uid ws' d))
             /\ (forall u, lookup_presence u (register uid ws' d) = Some ws ->
                           lookup_presence u d = Some ws)).
  { intros uid d Hd. split; [now apply dict_set_keys|].
    intros u Hu. unfold lookup_presence, register in *.
    destruct (String.eqb_spec uid u) as [<-|Hn].
    - rewrite dict_get_set_same in Hu. congruence.
    - now rewrite dict_get_set_other in Hu by exact Hn. }
  destruct ph.
  - destruct k; exact Hsame.
  - destruct k; try exact Hsame; try (now apply Hdereg).
    pose proof (ws_resume_first_frame E ws' tok w) as Hf. cbv zeta in Hf.
    rewrite Hf. clear Hf.
    destruct (require_user_same_state E tok w) as (_ & _ & Hac).
    destruct (outcome (require_user E tok w)) as [uid|e].
    + unfold world_of in Hac |- *.
      destruct (link_up E (pushes w));
        cbn [fst snd active_connections with_connections attempt]; rewrite Hac.
      * now apply Hreg.
      * destruct (Hreg uid _ Hnd) as [Hnd2 Hh2].
        destruct (Hdereg _ Hnd2) as [Hnd3 Hh3]. split; [exact Hnd3|].
        intros u Hu. now apply Hh2, Hh3.
    + unfold world_of in Hac |- *.
      cbn [fst snd active_connections with_connections].
      rewrite Hac. now apply Hdereg.
  - destruct k; try exact Hsame; now apply Hdereg.
  - exact Hsame.
  - exact Hsame.
Qed.

(** C9. For an accepted connection and any sequence of resumptions,
    whatever the other tasks do in between: the cleanup of the connection
    has run exactly once if the handler has returned and not at all while
    it is still suspended; a disconnect or an error of the awaited call
    makes it return; when the first frame fails the gate, the handler
    returns having performed the cleanup and nothing else, so the
    connection was never registered and a registry that did not hold it
    is unchanged; a disconnect or an error, before the first frame or in
    the read loop, runs the cleanup, after which the registry has lost
    the entry of the connection and nothing else; and, the other tasks
    not storing the connection, once the handler has returned the
    registry holds the connection for no user. *)
Theorem connection_cleanup_exactly_once
    (E : Env) (ws : WebSocket) (first : World -> World)
    (script : list ((World -> World) * Wake)) (w : World) :
  let r := websocket_endpoint E ws ((first, AcceptDone) :: script) w in
  deregistrations ws (snd r) = (if is_closed (fst (fst r)) then 1 else 0)%nat
  /\ (existsb is_exit (map snd script) = true -> fst (fst r) = Closed)
  /\ (forall others tok rest e,
        script = (others, FrameJson tok) :: rest ->
        outcome (require_user E tok (others (first w))) = Raise e ->
        fst (fst r) = Closed /\ snd r = [Deregistered ws])
  /\ (forall tok w0 e,
        outcome (require_user E tok w0) = Raise e ->
        let q := ws_resume E ws Connecting (FrameJson tok) w0 in
        outcome q = Ok Closed
        /\ trace_of q = [Deregistered ws]
        /\ List.filter (is_registered ws) (trace_of q) = []
        /\ active_connections (world_of q) = deregister ws (active_connections w0)
        /\ (List.NoDup (map fst (active_connections w0)) ->
            (forall u, lookup_presence u (active_connections w0) <> Some ws) ->
            active_connections (world_of q) = active_connections w0))
  /\ (forall ph k w0,
        accepted ph = true -> is_closed ph = false -> is_exit k = true ->
        let q := ws_resume E ws ph k w0 in
        outcome q = Ok Closed
        /\ trace_of q = [Deregistered ws]
        /\ (List.NoDup (map fst (active_connections w0)) ->
            held_at_most_once ws (active_connections w0) ->
            forall u,
              lookup_presence u (active_connections (world_of q))
              = without ws (active_connections w0) u))
  /\ (List.NoDup (map fst (active_connections w)) ->
      held_by_nobody ws (active_connections w) ->
      leaves_alone ws first ->
      Forall (fun step => leaves_alone ws (fst step)) script ->
      fst (fst r) = Closed ->
      held_by_nobody ws (active_connections (snd (fst r)))).
Proof.
  cbv zeta. rewrite websocket_endpoint_accepted.
  destruct (ws_run_accounting E ws script Connecting (first w) eq_refl)
    as (_ & _ & Hex & Hn).
  assert (Hfirst : forall tok w0 e,
             outcome (require_user E tok w0) = Raise e ->
             ws_resume E ws Connecting (FrameJson tok) w0
             = (Ok Closed,
                with_connections (deregister ws) (world_of (require_user E tok w0)),
                [Deregistered ws])).
  { intros tok w0 e He.
    pose proof (ws_resume_first_frame E ws tok w0) as Hf. cbv zeta in Hf.
    now rewrite Hf, He. }
  split; [|split; [exact Hex|split; [|split; [|split]]]].
  - simpl in Hn. lia.
  - intros others tok rest e -> He. cbn [ws_run].
    rewrite (Hfirst _ _ _ He).
    destruct (ws_run_accounting E ws rest Closed
                (with_connections (deregister ws)
                   (world_of (require_user E tok (others (first w))))) eq_refl)
      as (_ & Hcl & _).
    destruct (Hcl eq_refl) as [Hph Htr].
    destruct (ws_run E ws Closed rest _) as [[ph2 w2] t2]. simpl in *.
    now subst.
  - intros tok w0 e He. rewrite (Hfirst _ _ _ He).
    unfold outcome, world_of, trace_of. simpl.
    destruct (require_user_same_state E tok w0) as (_ & _ & Hac).
    unfold world_of in Hac. rewrite Hac.
    repeat split. intros Hnd Habs. now apply deregister_absent.
  - intros ph k w0 Hacc Hcl Hexit. rewrite (ws_resume_exit E ws ph k w0 Hacc Hcl Hexit).
    unfold outcome, world_of, trace_of. simpl.
    split; [reflexivity|]. split; [reflexivity|].
    intros Hnd Hone u. now apply deregister_lookup.
  - intros Hnd Hno Hfst Hall Hclosed.
    destruct (Hfst w Hnd) as [Hnd1 Hheld].
    assert (Hno1 : holders_ok ws Connecting (active_connections (first w))).
    { intros u Hu. apply (Hno u). now apply Hheld. }
    pose proof (ws_run_registry E ws script Connecting (first w) eq_refl
                  Hall Hnd1 Hno1) as Hreg.
    cbv zeta in Hreg. destruct Hreg as [_ Hok].
    rewrite Hclosed in Hok. exact Hok.
Qed.

Lemma connection_cleanup_exactly_once_witness :
  (deregistrations 9%nat
     (snd (websocket_endpoint env_up 9%nat
             [(fun w => w, AcceptDone);
              (fun w => w, FrameJson (TokStr "ta")); (fun w => w, FrameText);
              (fun w => w, PeerClosed)] deployment)) = 1%nat)
  /\ (fst (fst (websocket_endpoint env_up 9%nat
                  [(fun w => w, AcceptDone);
                   (fun w => w, FrameJson (TokStr "nobody")); (fun w => w, FrameText)]
                  deployment)) = Closed
      /\ snd (websocket_endpoint env_up 9%nat
                [(fun w => w, AcceptDone);
                 (fun w => w, FrameJson (TokStr "nobody")); (fun w => w, FrameText)]
                deployment) = [Deregistered 9%nat])
  /\ (lookup_presence "bob"
        (active_connections
           (snd (fst (websocket_endpoint env_up 9%nat
                        [(fun w => w, AcceptDone);
                         (fun w => w, FrameJson (TokStr "tb"));
                         (fun w => w, FrameText)] deployment)))) = Some 9%nat
      /\ held_by_nobody 9%nat
           (active_connections
              (snd (fst (websocket_endpoint env_up 9%nat
                           [(fun w => w, AcceptDone);
                            (fun w => w, FrameJson (TokStr "tb"));
                            (fun w => w, FrameText);
                            (fun w => w, PeerClosed)] deployment)))))
  /\ (lookup_presence "bob"
        (active_connections
           (world_of (ws_resume env_up 9%nat Authenticated PeerClosed
                        (with_connections (register "bob" 9%nat) deployment))))
      = None
      /\ lookup_presence "alice"
           (active_connections
              (world_of (ws_resume env_up 9%nat Authenticated PeerClosed
                           (with_connections (register "bob" 9%nat) deployment))))
         = Some 5%nat).
Proof.
  assert (Hid : leaves_alone 9%nat (fun w : World => w)).
  { intros w0 Hnd. split; [exact Hnd | intros u Hu; exact Hu]. }
  split; [|split; [|split; [split|split]]].
  - exact (proj1 (connection_cleanup_exactly_once env_up 9%nat (fun w => w)
                    [(fun w => w, FrameJson (TokStr "ta")); (fun w => w, FrameText);
                     (fun w => w, PeerClosed)] deployment)).
  - apply (proj1 (proj2 (proj2 (connection_cleanup_exactly_once env_up 9%nat
                    (fun w => w)
                    [(fun w => w, FrameJson (TokStr "nobody")); (fun w => w, FrameText)]
                    deployment)))
             (fun w => w) (TokStr "nobody") [(fun w => w, FrameText)]
             (HTTPException 401 "Invalid token")).
    + reflexivity.
    + reflexivity.
  - reflexivity.
  - apply (proj2 (proj2 (proj2 (proj2 (proj2
             (connection_cleanup_exactly_once env_up 9%nat (fun w => w)
                [(fun w => w, FrameJson (TokStr "tb")); (fun w => w, FrameText);
                 (fun w => w, PeerClosed)] deployment)))))).
    + simpl. repeat constructor. simpl. tauto.
    + intros u. unfold lookup_presence, deployment.
      cbn [active_connections dict_get].
      destruct (String.eqb "alice" u); intros H; discriminate H.
    + exact Hid.
    + repeat (apply List.Forall_cons; [exact Hid|]). apply List.Forall_nil.
    + reflexivity.
  - rewrite (proj2 (proj2 (proj1 (proj2 (proj2 (proj2 (proj2
               (connection_cleanup_exactly_once env_up 9%nat (fun w => w) []
                  deployment)))))
               Authenticated PeerClosed
               (with_connections (register "bob" 9%nat) deployment)
               eq_refl eq_refl eq_refl))).
    + reflexivity.
    + simpl. repeat constructor; simpl; intuition discriminate.
    + change (active_connections
                (with_connections (register "bob" 9%nat) deployment))
        with [("alice", 5%nat); ("bob", 9%nat)].
      intros u1 u2. unfold lookup_presence. cbn [dict_get].
      destruct (String.eqb_spec "alice" u1); [intros H; discriminate H|].
      destruct (String.eqb_spec "alice" u2); [intros _ H; discriminate H|].
      destruct (String.eqb_spec "bob" u1) as [<-|]; [|intros H; discriminate H].
      destruct (String.eqb_spec "bob" u2) as [<-|]; [|intros _ H; discriminate H].
      reflexivity.
  - rewrite (proj2 (proj2 (proj1 (proj2 (proj2 (proj2 (proj2
               (connection_cleanup_exactly_once env_up 9%nat (fun w => w) []
                  deployment)))))
               Authenticated PeerClosed
               (with_connections (register "bob" 9%nat) deployment)
               eq_refl eq_refl eq_refl))).
    + reflexivity.
    + simpl. repeat constructor; simpl; intuition discriminate.
    + change (active_connections
                (with_connections (register "bob" 9%nat) deployment))
        with [("alice", 5%nat); ("bob", 9%nat)].
      intros u1 u2. unfold lookup_presence. cbn [dict_get].
      destruct (String.eqb_spec "alice" u1); [intros H; discriminate H|].
      destruct (String.eqb_spec "alice" u2); [intros _ H; discriminate H|].
      destruct (String.eqb_spec "bob" u1) as [<-|]; [|intros H; discriminate H].
      destruct (String.eqb_spec "bob" u2) as [<-|]; [|intros _ H; discriminate H].
      reflexivity.
Defined.

(** * Further properties of the handlers *)

(** ** Ids as strings *)

Lemma hex_digit_hex_char d : (d < 16)%N -> hex_digit (hex_char d) = Some d.
Proof.
  intros Hd. destruct d as [|p]; [reflexivity|].
  do 4 (destruct p as [p|p|]; try reflexivity); lia.
Qed.

Lemma to_hex_length k : forall n acc,
  String.length (to_hex k n acc) = (k + String.length acc)%nat.
Proof.
  induction k as [|k IH]; intros n acc; simpl; [reflexivity|].
  rewrite IH. simpl. lia.
Qed.

Lemma is_space_hex_char d : (d < 16)%N -> is_space (hex_char d) = false.
Proof.
  intros Hd. destruct d as [|p]; [reflexivity|].
  do 4 (destruct p as [p|p|]; try reflexivity); lia.
Qed.

(** Reading back the [2 * k] digits written for a number. *)
Lemma fromhex_to_hex k : forall n acc a c,
  fromhex (to_hex (2 * k) n acc) a c
  = fromhex acc (a * 256 ^ N.of_nat k + n mod 256 ^ N.of_nat k)%N (c + k)%nat.
Proof.
  induction k as [|k IH]; intros n acc a c.
  - simpl. rewrite N.mod_1_r, Nat.add_0_r. f_equal. lia.
  - replace (2 * S k)%nat with (S (S (2 * k))) by lia.
    cbn [to_hex]. rewrite IH. cbn [fromhex].
    rewrite !is_space_hex_char by (apply N.mod_lt; lia).
    rewrite !hex_digit_hex_char by (apply N.mod_lt; lia).
    rewrite Nat2N.inj_succ, N.pow_succ_r'.
    replace (c + S k)%nat with (S (c + k)) by lia.
    f_equal.
    assert (H256 : (n mod (256 * 256 ^ N.of_nat k)
                    = n mod 256 + 256 * ((n / 256) mod 256 ^ N.of_nat k))%N)
      by apply N.Div0.mod_mul_r.
    assert (H16 : (n mod 256 = n mod 16 + 16 * ((n / 16) mod 16))%N)
      by (change 256%N with (16 * 16)%N; apply N.Div0.mod_mul_r).
    assert (Hdiv : (n / 16 / 16 = n / 256)%N)
      by (rewrite N.Div0.div_div; reflexivity).
    rewrite Hdiv, H256, H16. lia.
Qed.

(** [ObjectId(str(oid)) == oid] for a 12-byte id. *)
Lemma ObjectId_str_oid o : (o < 16 ^ 24)%N -> ObjectId (str_oid o) = Some o.
Proof.
  intros Ho. unfold ObjectId, str_oid.
  rewrite to_hex_length. cbn [String.length Nat.add Nat.eqb].
  change 24%nat with (2 * 12)%nat. rewrite fromhex_to_hex. cbn [fromhex Nat.add Nat.eqb].
  f_equal. change (256 ^ N.of_nat 12)%N with (16 ^ 24)%N.
  rewrite N.mod_small by exact Ho. lia.
Qed.

Lemma hex_digit_lt c d : hex_digit c = Some d -> (d < 16)%N.
Proof.
  unfold hex_digit.
  repeat match goal with
         | |- context [if ?b then _ else _] => destruct b eqn:?
         end; intros [= <-];
    repeat match goal with
           | H : (_ && _)%bool = true |- _ => apply andb_true_iff in H as [? ?]
           | H : (_ <=? _)%N = true |- _ => apply N.leb_le in H
           end; lia.
Qed.

(** [bytes.fromhex] reads at most one byte for two characters, and the
    number it returns is the one its bytes spell. *)
Lemma fromhex_bound n : forall s acc c v k,
  (String.length s <= n)%nat ->
  fromhex s acc c = Some (v, k) ->
  (acc < 256 ^ N.of_nat c)%N ->
  (v < 256 ^ N.of_nat k)%N /\ (2 * k <= 2 * c + String.length s)%nat.
Proof.
  induction n as [|n IH]; intros s acc c v k Hn.
  - destruct s; [|simpl in Hn; lia]. cbn [fromhex String.length].
    intros [= <- <-] Hacc. split; [exact Hacc | lia].
  - destruct s as [|ch s]; cbn [fromhex String.length] in *.
    + intros [= <- <-] Hacc. split; [exact Hacc | lia].
    + destruct (is_space ch).
      * intros Hf Hacc.
        destruct (IH s acc c v k ltac:(lia) Hf Hacc). split; [assumption | lia].
      * destruct (hex_digit ch) as [top|] eqn:Htop; [|discriminate].
        destruct s as [|ch' s]; [discriminate|].
        destruct (hex_digit ch') as [bot|] eqn:Hbot; [|discriminate].
        cbn [String.length] in *. intros Hf Hacc.
        pose proof (hex_digit_lt _ _ Htop). pose proof (hex_digit_lt _ _ Hbot).
        assert (Hacc' : (256 * acc + (16 * top + bot) < 256 ^ N.of_nat (S c))%N)
          by (rewrite Nat2N.inj_succ, N.pow_succ_r'; lia).
        destruct (IH s _ _ _ _ ltac:(lia) Hf Hacc'). split; [assumption | lia].
Qed.

(** Two strings give the same id exactly when they give the same bytes. *)
Lemma ObjectId_same_bytes s1 s2 o :
  ObjectId s1 = Some o -> ObjectId s2 = Some o ->
  fromhex s1 0%N 0%nat = fromhex s2 0%N 0%nat.
Proof.
  unfold ObjectId.
  destruct (Nat.eqb_spec (String.length s1) 24) as [H1|]; [|discriminate].
  destruct (Nat.eqb_spec (String.length s2) 24) as [H2|]; [|discriminate].
  destruct (fromhex s1 0%N 0%nat) as [[v1 k1]|] eqn:Hf1; [|discriminate].
  destruct (fromhex s2 0%N 0%nat) as [[v2 k2]|] eqn:Hf2; [|discriminate].
  destruct (fromhex_bound _ _ _ _ _ _ (Nat.le_refl _) Hf1) as [Hv1 Hk1];
    [simpl; lia|].
  destruct (fromhex_bound _ _ _ _ _ _ (Nat.le_refl _) Hf2) as [Hv2 Hk2];
    [simpl; lia|].
  assert (Hpow : forall k, (k <= 12)%nat -> (256 ^ N.of_nat k <= 16 ^ 24)%N).
  { intros k Hk. change (16 ^ 24)%N with (256 ^ N.of_nat 12)%N.
    apply N.pow_le_mono_r; lia. }
  pose proof (Hpow k1 ltac:(lia)). pose proof (Hpow k2 ltac:(lia)).
  remember (16 ^ 24)%N as B eqn:HB.
  assert (HBpos : (0 < B)%N) by (subst B; reflexivity).
  intros [= <-] [= Heq].
  destruct (Nat.eqb_spec k1 12) as [->|Hn1]; destruct (Nat.eqb_spec k2 12) as [->|Hn2].
  - now subst.
  - exfalso. nia.
  - exfalso. nia.
  - assert (Hk : N.of_nat k1 = N.of_nat k2) by nia.
    apply Nat2N.inj in Hk. subst k2. f_equal. f_equal. nia.
Qed.

(** Twenty-four characters with white space between intact pairs are an
    id, of fewer bytes, equal to no 12-byte id; white space inside a pair
    is not skipped; a read receipt naming such an id is answered. *)
Lemma ObjectId_skips_white_space :
  ObjectId "00 00 00 00 00 00 00 00 " = Some (16 ^ 24 * 9)%N
  /\ ObjectId "000000000000000000000000" = Some 0%N
  /\ ObjectId "0 0000000000000000000000" = None
  /\ ObjectId "0000000000000000000000 0" = None
  /\ outcome (mark_read env_up
                (ReadReceiptRequest.mk "tb" ["00 00 00 00 00 00 00 00 "]) deployment)
     = Ok 1%nat.
Proof. repeat split; vm_compute; reflexivity. Qed.

(** The gate raises nothing but a 401. *)
Lemma require_user_raises_401 E tok w e :
  outcome (require_user E tok w) = Raise e ->
  exists detail, e = HTTPException 401 detail.
Proof.
  rewrite require_user_unfold.
  destruct (List.filter (token_is tok) (db_session w)) as [|s l].
  - intros [= <-]. eauto.
  - destruct (expires_at s) as [x|]; [|discriminate].
    destruct (x <? clock E (clock_reads w)); [|discriminate].
    intros [= <-]. eauto.
Qed.

Lemma require_user_raise_inv E tok w e :
  outcome (require_user E tok w) = Raise e ->
  require_user E tok w = (Raise e, world_of (require_user E tok w), []).
Proof.
  intros Ho.
  pose proof (require_user_reads_only E tok w) as (_ & _ & _ & _ & Ht).
  destruct (require_user E tok w) as [[o w1] t].
  unfold outcome, world_of, trace_of in *. simpl in *. now subst.
Qed.

(** ** Sending, the other paths *)

Lemma send_message_delivered_unfold E msg_id oid w :
  ObjectId msg_id = Some oid ->
  send_message_delivered E msg_id w
  = (Ok msg_id,
     with_message (alter (set_delivered (clock E (clock_reads w))) oid) (tick w),
     []).
Proof.
  intros Hid. unfold send_message_delivered. rewrite Hid.
  unfold bind, now_utc, update_one, ret. reflexivity.
Qed.

(** [send_message] as a whole, for a sender that passes the gate. *)
Lemma send_message_unfold E req w sender :
  outcome (require_user E (TokStr (SendMessageRequest.token req)) w) = Ok sender ->
  let w1 := world_of (require_user E (TokStr (SendMessageRequest.token req)) w) in
  let t := clock E (clock_reads w1) in
  let oid := fresh (dom (db_message w)) in
  let msg := mkMessage sender (SendMessageRequest.recipient_id req)
                       (SendMessageRequest.text req)
                       (SendMessageRequest.ciphertext req)
                       (SendMessageRequest.nonce req)
                       sent (Some t) None None in
  let w2 := with_message (insert oid msg) (tick w1) in
  send_message E req w =
  match lookup_presence (SendMessageRequest.recipient_id req)
                        (active_connections w) with
  | None => (Ok (str_oid oid), w2, [])
  | Some ws =>
      if link_up E (pushes w) then
        match send_message_delivered E (str_oid oid) (attempt w2) with
        | (o, w3, t3) =>
            (o, w3,
             Pushed ws (EvMessage (str_oid oid) sender
                          (SendMessageRequest.recipient_id req)
                          (SendMessageRequest.text req)
                          (SendMessageRequest.ciphertext req)
                          (SendMessageRequest.nonce req) (Some t)) :: t3)
        end
      else (Raise SendFailed, attempt w2, [])
  end.
Proof.
  intros Hu. cbv zeta.
  pose proof (send_message_dispatch_unfold E req w sender Hu) as Hd.
  cbv zeta in Hd.
  destruct (require_user_reads_only E (TokStr (SendMessageRequest.token req)) w)
    as (_ & _ & _ & Hpush & _).
  unfold send_message. unfold bind at 1. rewrite Hd.
  destruct (lookup_presence _ (active_connections w)) as [ws|]; [|reflexivity].
  unfold bind, send_json. cbn [pushes with_message tick].
  rewrite Hpush. destruct (link_up E (pushes w)); [|reflexivity].
  destruct (send_message_delivered E _ _) as [[o w3] t3]. reflexivity.
Qed.

(** X1. A send to a recipient who is not connected: for a sender that
    passes the gate, the handler answers with the id of a message that was
    not stored before and now is, with status sent, the request's sender,
    recipient and body, a sent_at and neither delivered_at nor read_at;
    nothing is pushed, and every other stored document and the registry
    are as before. *)
Theorem send_message_recipient_offline
    (E : Env) (req : SendMessageRequest.t) (w : World) (sender : string) :
  outcome (require_user E (TokStr (SendMessageRequest.token req)) w) = Ok sender ->
  lookup_presence (SendMessageRequest.recipient_id req) (active_connections w)
    = None ->
  let r := send_message E req w in
  let oid := fresh (dom (db_message w)) in
  outcome r = Ok (str_oid oid)
  /\ trace_of r = []
  /\ db_message w !! oid = None
  /\ (exists t,
        db_message (world_of r)
        = <[oid := mkMessage sender (SendMessageRequest.recipient_id req)
                     (SendMessageRequest.text req)
                     (SendMessageRequest.ciphertext req)
                     (SendMessageRequest.nonce req) sent (Some t) None None]>
            (db_message w))
  /\ db_session (world_of r) = db_session w
  /\ active_connections (world_of r) = active_connections w.
Proof.
  intros Hu Hoff r oid.
  pose proof (send_message_unfold E req w sender Hu) as Hs. cbv zeta in Hs.
  rewrite Hoff in Hs.
  destruct (require_user_same_state E (TokStr (SendMessageRequest.token req)) w)
    as (Hse & Hdb & Hac).
  unfold r. rewrite Hs. unfold outcome, world_of, trace_of in *.
  cbn [fst snd with_message tick db_message db_session active_connections].
  rewrite Hdb, Hse, Hac.
  split; [reflexivity|]. split; [reflexivity|].
  split; [apply not_elem_of_dom, is_fresh|].
  split; [eexists; reflexivity|]. split; reflexivity.
Qed.

Lemma send_message_recipient_offline_witness :
  outcome (send_message env_up
             (SendMessageRequest.mk "ta" "carol" (Some "yo") None None) deployment)
  = Ok id2.
Proof.
  apply (send_message_recipient_offline
           env_up (SendMessageRequest.mk "ta" "carol" (Some "yo") None None)
           deployment "alice").
  - reflexivity.
  - reflexivity.
Defined.

(** X2. A send to a connected recipient whose push goes through: for a
    sender that passes the gate and a generated id of 12 bytes, exactly
    one frame is pushed, to the connection registered for the recipient,
    carrying the id, sender, recipient, body and sent_at of the message;
    the message is stored as delivered with both timestamps, and
    delivered_at is not before sent_at when the clock does not run
    backwards; the answer is the id; no other message changes. *)
Theorem send_message_recipient_online
    (E : Env) (req : SendMessageRequest.t) (w : World)
    (sender : string) (ws : WebSocket) :
  outcome (require_user E (TokStr (SendMessageRequest.token req)) w) = Ok sender ->
  lookup_presence (SendMessageRequest.recipient_id req) (active_connections w)
    = Some ws ->
  link_up E (pushes w) = true ->
  (fresh (dom (db_message w)) < 16 ^ 24)%N ->
  let r := send_message E req w in
  let oid := fresh (dom (db_message w)) in
  outcome r = Ok (str_oid oid)
  /\ db_message w !! oid = None
  /\ exists t1 t2,
       trace_of r
       = [Pushed ws (EvMessage (str_oid oid) sender
                       (SendMessageRequest.recipient_id req)
                       (SendMessageRequest.text req)
                       (SendMessageRequest.ciphertext req)
                       (SendMessageRequest.nonce req) (Some t1))]
       /\ db_message (world_of r)
          = <[oid := mkMessage sender (SendMessageRequest.recipient_id req)
                       (SendMessageRequest.text req)
                       (SendMessageRequest.ciphertext req)
                       (SendMessageRequest.nonce req)
                       delivered (Some t1) (Some t2) None]>
              (db_message w)
       /\ ((forall n, clock E n <= clock E (S n)) -> t1 <= t2).
Proof.
  intros Hu Hon Hup Hfit r oid.
  pose proof (send_message_unfold E req w sender Hu) as Hs. cbv zeta in Hs.
  rewrite Hon, Hup in Hs.
  rewrite (send_message_delivered_unfold _ _ _ _ (ObjectId_str_oid _ Hfit)) in Hs.
  destruct (require_user_same_state E (TokStr (SendMessageRequest.token req)) w)
    as (_ & Hdb & _).
  unfold r. rewrite Hs. unfold outcome, world_of, trace_of in *.
  cbn [fst snd with_message tick attempt db_message clock_reads].
  rewrite Hdb.
  split; [reflexivity|]. split; [apply not_elem_of_dom, is_fresh|].
  do 2 eexists. split; [reflexivity|]. split.
  - rewrite alter_insert_eq. reflexivity.
  - intros Hmono. apply Hmono.
Qed.

Lemma send_message_recipient_online_witness :
  outcome (send_message env_up
             (SendMessageRequest.mk "tb" "alice" (Some "yo") None None) deployment)
  = Ok id2.
Proof.
  apply (send_message_recipient_online
           env_up (SendMessageRequest.mk "tb" "alice" (Some "yo") None None)
           deployment "bob" 5%nat).
  - reflexivity.
  - reflexivity.
  - reflexivity.
  - vm_compute. reflexivity.
Defined.

Lemma send_message_gate_fails E req w e :
  outcome (require_user E (TokStr (SendMessageRequest.token req)) w) = Raise e ->
  send_message E req w
  = (Raise e, world_of (require_user E (TokStr (SendMessageRequest.token req)) w), []).
Proof.
  intros He. unfold send_message, send_message_dispatch, bind.
  now rewrite (require_user_raise_inv _ _ _ _ He).
Qed.

Lemma mark_read_gate_fails E req w e :
  outcome (require_user E (TokStr (ReadReceiptRequest.token req)) w) = Raise e ->
  mark_read E req w
  = (Raise e, world_of (require_user E (TokStr (ReadReceiptRequest.token req)) w), []).
Proof.
  intros He. unfold mark_read, bind.
  now rewrite (require_user_raise_inv _ _ _ _ He).
Qed.

(** X3. No handler works without a session: when the token fails the
    gate, [send_message] and [mark_read] answer 401, store and modify
    nothing, and push nothing. *)
Theorem handlers_need_a_session
    (E : Env) (w : World) (tok : string) (e : Exn) :
  outcome (require_user E (TokStr tok) w) = Raise e ->
  (forall rcpt body cipher nonce_,
      let r := send_message E (SendMessageRequest.mk tok rcpt body cipher nonce_) w in
      outcome r = Raise e /\ http_status (outcome r) = 401%nat
      /\ same_state w (world_of r) /\ trace_of r = [])
  /\ (forall ids,
        let r := mark_read E (ReadReceiptRequest.mk tok ids) w in
        outcome r = Raise e /\ http_status (outcome r) = 401%nat
        /\ same_state w (world_of r) /\ trace_of r = []).
Proof.
  intros He.
  destruct (require_user_raises_401 _ _ _ _ He) as [detail ->].
  pose proof (require_user_same_state E (TokStr tok) w) as Hsame.
  split.
  - intros rcpt body cipher nonce_ r. unfold r.
    rewrite (send_message_gate_fails E (SendMessageRequest.mk tok rcpt body cipher nonce_) w _ He).
    unfold outcome, world_of, trace_of in *. simpl. auto.
  - intros ids r. unfold r.
    rewrite (mark_read_gate_fails E (ReadReceiptRequest.mk tok ids) w _ He).
    unfold outcome, world_of, trace_of in *. simpl. auto.
Qed.

Lemma handlers_need_a_session_witness :
  outcome (mark_read env_up (ReadReceiptRequest.mk "stolen" [id1]) deployment)
  = Raise (HTTPException 401 "Invalid token").
Proof.
  apply (proj2 (handlers_need_a_session env_up deployment "stolen"
                  (HTTPException 401 "Invalid token") eq_refl) [id1]).
Defined.

(** ** Read receipts, further *)

Lemma after_read_dom ids uid t (msgs : gmap N Message) :
  dom (after_read ids uid t msgs) = dom msgs.
Proof.
  apply set_eq. intros k. rewrite !elem_of_dom, after_read_lookup.
  destruct (msgs !! k); simpl; split; intros [x Hx]; eauto; discriminate.
Qed.

(** X4. A read receipt never adds or removes a message and never touches
    sessions or the registry, whatever its token, its ids and the fate
    of its pushes. *)
Theorem mark_read_keeps_collection
    (E : Env) (req : ReadReceiptRequest.t) (w : World) :
  let r := mark_read E req w in
  dom (db_message (world_of r)) = dom (db_message w)
  /\ db_session (world_of r) = db_session w
  /\ active_connections (world_of r) = active_connections w.
Proof.
  cbv zeta.
  pose proof (require_user_same_state E (TokStr (ReadReceiptRequest.token req)) w)
    as (Hse & Hdb & Hac).
  destruct (outcome (require_user E (TokStr (ReadReceiptRequest.token req)) w))
    as [uid|e] eqn:Hu.
  - destruct (parse_ids (ReadReceiptRequest.message_ids req)) as [bad|ids] eqn:Hp.
    + rewrite (mark_read_bad_ids _ _ _ _ _ Hu Hp). unfold world_of at 1 3 5.
      simpl. now rewrite Hse, Hdb, Hac.
    + pose proof (mark_read_unfold _ _ _ _ _ Hu Hp) as Hm. cbv zeta in Hm.
      rewrite Hm. clear Hm.
      match goal with |- context [notify_senders E uid ids ?w2] =>
        destruct (notify_senders_frame E uid ids w2) as ((Hse2 & Hdb2 & Hac2) & _);
        destruct (notify_senders E uid ids w2) as [[[[]|e] w3] t3]
      end; unfold world_of in *; simpl in *;
        rewrite Hse2, Hdb2, Hac2, after_read_dom, Hse, Hdb, Hac; auto.
  - rewrite (mark_read_gate_fails _ _ _ _ Hu).
    unfold world_of in *. simpl. now rewrite Hse, Hdb, Hac.
Qed.

Lemma after_read_twice ids uid t t' (msgs : gmap N Message) :
  after_read ids uid t' (after_read ids uid t msgs) = after_read ids uid t' msgs.
Proof.
  apply map_eq. intros k. rewrite !after_read_lookup.
  destruct (msgs !! k) as [m|]; simpl; [|reflexivity]. f_equal.
  unfold read_filter. simpl.
  destruct (existsb (N.eqb k) ids && String.eqb (recipient_id m) uid) eqn:Hf.
  - simpl. rewrite Hf. reflexivity.
  - rewrite Hf. reflexivity.
Qed.

(** X5. Receipts do not accumulate: when the same caller sends the same
    receipt again, the stored messages are what the second receipt alone
    would have made of the original store; the statuses are those after
    the first receipt and read_at carries the time of the second. *)
Theorem mark_read_again
    (E : Env) (req : ReadReceiptRequest.t) (w : World)
    (uid : string) (ids : list N) :
  outcome (require_user E (TokStr (ReadReceiptRequest.token req)) w) = Ok uid ->
  parse_ids (ReadReceiptRequest.message_ids req) = inr ids ->
  let w' := world_of (mark_read E req w) in
  outcome (require_user E (TokStr (ReadReceiptRequest.token req)) w') = Ok uid ->
  exists t',
    db_message (world_of (mark_read E req w')) = after_read ids uid t' (db_message w)
    /\ forall oid,
         status <$> db_message (world_of (mark_read E req w')) !! oid
         = status <$> db_message w' !! oid.
Proof.
  intros Hu Hp w' Hu'.
  destruct (mark_read_messages _ _ _ _ _ Hu Hp) as [t Hdb].
  destruct (mark_read_messages _ _ _ _ _ Hu' Hp) as [t' Hdb'].
  fold w' in Hdb. exists t'. rewrite Hdb', Hdb, after_read_twice.
  split; [reflexivity|]. intros oid. rewrite !after_read_lookup.
  destruct (db_message w !! oid) as [m|]; simpl; [|reflexivity].
  destruct (read_filter ids uid oid m); reflexivity.
Qed.

Lemma mark_read_again_witness :
  exists t',
    db_message
      (world_of (mark_read env_up (ReadReceiptRequest.mk "tb" [id1])
                   (world_of (mark_read env_up (ReadReceiptRequest.mk "tb" [id1])
                                deployment))))
    = after_read [1%N] "bob" t' (db_message deployment)
    /\ forall oid,
         status <$> db_message
           (world_of (mark_read env_up (ReadReceiptRequest.mk "tb" [id1])
                        (world_of (mark_read env_up (ReadReceiptRequest.mk "tb" [id1])
                                     deployment)))) !! oid
         = status <$> db_message
             (world_of (mark_read env_up (ReadReceiptRequest.mk "tb" [id1])
                          deployment)) !! oid.
Proof.
  apply (mark_read_again env_up (ReadReceiptRequest.mk "tb" [id1])
           deployment "bob" [1%N]).
  - reflexivity.
  - reflexivity.
  - reflexivity.
Defined.

(** X6. The update of a read receipt is applied whatever becomes of the
    notifications: the call either answers or ends with the exception of
    a failed push, and in both cases every listed message of the caller,
    whatever its status was, is stored as read with the time of the call
    as read_at; nothing is undone. *)
Theorem mark_read_applied_whatever_the_pushes
    (E : Env) (req : ReadReceiptRequest.t) (w : World)
    (uid : string) (ids : list N) (oid : N) (m : Message) :
  outcome (require_user E (TokStr (ReadReceiptRequest.token req)) w) = Ok uid ->
  parse_ids (ReadReceiptRequest.message_ids req) = inr ids ->
  In oid ids ->
  db_message w !! oid = Some m ->
  recipient_id m = uid ->
  (outcome (mark_read E req w) = Ok (length ids)
   \/ outcome (mark_read E req w) = Raise SendFailed)
  /\ exists t,
       db_message (world_of (mark_read E req w)) !! oid = Some (set_read t m).
Proof.
  intros Hu Hp Hin Hm Hrcp. split.
  - pose proof (mark_read_unfold _ _ _ _ _ Hu Hp) as Hr. cbv zeta in Hr.
    rewrite Hr.
    match goal with |- context [notify_senders E uid ids ?w2] =>
      destruct (notify_senders_frame E uid ids w2) as (_ & Ho & _);
      destruct (notify_senders E uid ids w2) as [[[[]|e] w3] t3]
    end; unfold outcome in *; simpl in *; [now left|].
    destruct Ho as [Ho|Ho]; [discriminate Ho | injection Ho as ->; now right].
  - destruct (mark_read_messages _ _ _ _ _ Hu Hp) as [t Hdb].
    exists t. rewrite Hdb, after_read_lookup, Hm. simpl.
    assert (Hf : read_filter ids uid oid m = true).
    { unfold read_filter. apply andb_true_iff. split.
      - apply existsb_exists. exists oid. split; [exact Hin | apply N.eqb_refl].
      - now apply String.eqb_eq. }
    now rewrite Hf.
Qed.

Lemma mark_read_applied_whatever_the_pushes_witness :
  outcome (mark_read env_down (ReadReceiptRequest.mk "tb" [id1]) deployment)
  = Raise SendFailed
  /\ exists t,
       db_message
         (world_of (mark_read env_down (ReadReceiptRequest.mk "tb" [id1]) deployment))
         !! 1%N = Some (set_read t hi).
Proof.
  split; [reflexivity|].
  apply (mark_read_applied_whatever_the_pushes
           env_down (ReadReceiptRequest.mk "tb" [id1]) deployment "bob" [1%N] 1%N hi).
  - reflexivity.
  - reflexivity.
  - simpl. now left.
  - reflexivity.
  - reflexivity.
Defined.

Lemma notifications_ext w w' ids :
  (forall oid, sender_id <$> db_message w' !! oid = sender_id <$> db_message w !! oid) ->
  active_connections w' = active_connections w ->
  notifications w' ids = notifications w ids.
Proof.
  intros Hdb Hac. unfold notifications.
  induction ids as [|oid ids IH]; [reflexivity|]. cbn [flat_map]. rewrite IH.
  f_equal. specialize (Hdb oid). rewrite Hac.
  destruct (db_message w' !! oid) as [m'|], (db_message w !! oid) as [m|];
    simpl in Hdb; try discriminate; [|reflexivity].
  injection Hdb as ->. reflexivity.
Qed.

(** The loop pushes read events in the name of [uid], to the targets of
    [notifications], in that order, until a push fails. *)
Lemma notify_senders_targets E uid ids :
  forall w,
    let r := notify_senders E uid ids w in
    (exists rest,
        map Some (notifications w ids) = map push_target (trace_of r) ++ rest)
    /\ ((forall n, link_up E n = true) ->
        map push_target (trace_of r) = map Some (notifications w ids))
    /\ Forall (fun e => exists ws mid t, e = Pushed ws (EvRead mid t uid))
              (trace_of r).
Proof.
  induction ids as [|oid rest IH]; intros w; cbv zeta.
  - simpl. unfold ret, trace_of. simpl. split; [exists []; reflexivity|].
    split; [reflexivity | constructor].
  - rewrite notify_senders_cons. unfold notifications. cbn [flat_map].
    fold (notifications w rest).
    destruct (db_message w !! oid) as [m|]; [|apply IH].
    destruct (lookup_presence (sender_id m) (active_connections w)) as [ws|];
      [|apply IH].
    destruct (link_up E (pushes w)) eqn:Hl0.
    + destruct (IH (attempt (tick w))) as ((more & Hpre) & Hall & Hev).
      change (notifications (attempt (tick w)) rest)
        with (notifications w rest) in *.
      destruct (notify_senders E uid rest (attempt (tick w))) as [[o w1] t1].
      unfold trace_of in *. cbn [snd map app] in *.
      split; [exists more; now rewrite Hpre|].
      split; [intros Hup; now rewrite (Hall Hup)|].
      constructor; [eauto | exact Hev].
    + unfold trace_of. cbn [snd map app].
      split; [eexists; reflexivity|].
      split; [intros Hup; rewrite Hup in Hl0; discriminate Hl0 | constructor].
Qed.

(** X7. Whom a read receipt notifies.  For a caller that passes the gate
    and ids that parse, every frame pushed is a read event naming the
    caller as reader; the frames go, in the order of the list and once
    per occurrence of an id, to the connection registered for the sender
    of each listed message that is stored, whoever its recipient is; a
    failed push ends the loop, so that the frames pushed are an initial
    part of that list, and all of it when every push goes through. *)
Theorem mark_read_notifications
    (E : Env) (req : ReadReceiptRequest.t) (w : World)
    (uid : string) (ids : list N) :
  outcome (require_user E (TokStr (ReadReceiptRequest.token req)) w) = Ok uid ->
  parse_ids (ReadReceiptRequest.message_ids req) = inr ids ->
  let r := mark_read E req w in
  (exists rest,
      map Some (notifications w ids) = map push_target (trace_of r) ++ rest)
  /\ ((forall n, link_up E n = true) ->
      map push_target (trace_of r) = map Some (notifications w ids))
  /\ Forall (fun e => exists ws mid t, e = Pushed ws (EvRead mid t uid))
            (trace_of r).
Proof.
  intros Hu Hp r.
  pose proof (mark_read_unfold _ _ _ _ _ Hu Hp) as Hr. cbv zeta in Hr.
  unfold r. rewrite Hr. clear Hr.
  match goal with |- context [notify_senders E uid ids ?w2] =>
    pose proof (notify_senders_targets E uid ids w2) as Ht;
    assert (Hn : notifications w2 ids = notifications w ids)
  end.
  { apply notifications_ext.
    - intros oid. cbn [with_message tick db_message].
      destruct (require_user_same_state E (TokStr (ReadReceiptRequest.token req)) w)
        as (_ & -> & _).
      rewrite after_read_lookup.
      destruct (db_message w !! oid) as [m|]; simpl; [|reflexivity].
      now destruct (read_filter ids uid oid m).
    - cbn [with_message tick active_connections].
      apply (require_user_same_state E _ w). }
  cbv zeta in Ht. rewrite Hn in Ht.
  match goal with |- context [notify_senders E uid ids ?w2] =>
    destruct (notify_senders E uid ids w2) as [[[[]|e] w3] t3]
  end; unfold trace_of in *; simpl in *; exact Ht.
Qed.

Lemma mark_read_notifications_witness :
  map push_target
    (trace_of (mark_read env_up (ReadReceiptRequest.mk "tb" [id1; id2; id1])
                 deployment))
  = [Some (5%nat, id1); Some (5%nat, id1)].
Proof.
  apply (proj1 (proj2 (mark_read_notifications
                         env_up (ReadReceiptRequest.mk "tb" [id1; id2; id1])
                         deployment "bob" [1%N; 2%N; 1%N] eq_refl eq_refl))).
  intros n. reflexivity.
Defined.

(** ** The connection handler, further *)

Lemma deregister_lookup_other ws d u :
  List.NoDup (map fst d) ->
  lookup_presence u d <> Some ws ->
  lookup_presence u (deregister ws d) = lookup_presence u d.
Proof.
  intros Hnd Hu. unfold deregister.
  destruct (List.find (fun item => Nat.eqb (snd item) ws) d) as [[uid sock]|] eqn:Hf;
    [|reflexivity].
  apply find_some in Hf as [Hin Heq]. simpl in Heq.
  apply Nat.eqb_eq in Heq. subst sock.
  apply (dict_get_item _ _ _ Hnd) in Hin.
  unfold lookup_presence in *. apply dict_get_pop_other.
  intros ->. contradiction.
Qed.

(** Registering a connection that the registry does not hold and taking
    it out again: the user is absent, everybody else is as before. *)
Lemma deregister_register ws uid d :
  List.NoDup (map fst d) ->
  (forall u, lookup_presence u d <> Some ws) ->
  lookup_presence uid (deregister ws (register uid ws d)) = None
  /\ forall u, u <> uid ->
       lookup_presence u (deregister ws (register uid ws d)) = lookup_presence u d.
Proof.
  intros Hnd Habs.
  assert (Hnd' : List.NoDup (map fst (register uid ws d)))
    by now apply dict_set_keys.
  assert (Hother : forall u, u <> uid ->
            lookup_presence u (register uid ws d) = lookup_presence u d).
  { intros u Hu. apply dict_get_set_other. congruence. }
  split.
  - apply deregister_removes; [exact Hnd' | apply dict_get_set_same |].
    intros u' Hu'. destruct (String.eqb_spec u' uid) as [->|Hne]; [reflexivity|].
    rewrite (Hother _ Hne) in Hu'. now apply Habs in Hu'.
  - intros u Hu. rewrite deregister_lookup_other; [now apply Hother | exact Hnd' |].
    rewrite (Hother _ Hu). apply Habs.
Qed.

(** X8. A first frame whose token passes the gate, with the confirmation
    going through: the connection becomes the one registered for the
    user of the session, the entries of the other users stay, the peer is
    sent the "connected" event with that user id, and the handler goes on
    to its read loop without having run the cleanup; no stored document
    changes. *)
Theorem websocket_authenticates
    (E : Env) (ws : WebSocket) (tok : TokenValue) (w : World) (uid : string) :
  outcome (require_user E tok w) = Ok uid ->
  link_up E (pushes w) = true ->
  let q := ws_resume E ws Connecting (FrameJson tok) w in
  outcome q = Ok Authenticated
  /\ trace_of q = [Registered uid ws; Pushed ws (EvConnected uid)]
  /\ lookup_presence uid (active_connections (world_of q)) = Some ws
  /\ (forall u, u <> uid ->
        lookup_presence u (active_connections (world_of q))
        = lookup_presence u (active_connections w))
  /\ db_session (world_of q) = db_session w
  /\ db_message (world_of q) = db_message w.
Proof.
  intros Hu Hup q.
  pose proof (ws_resume_first_frame E ws tok w) as Hf. cbv zeta in Hf.
  rewrite Hu, Hup in Hf. unfold q. rewrite Hf.
  destruct (require_user_same_state E tok w) as (Hse & Hdb & Hac).
  unfold outcome, world_of, trace_of in *.
  cbn [fst snd attempt with_connections active_connections db_session db_message].
  rewrite Hse, Hdb, Hac.
  split; [reflexivity|]. split; [reflexivity|].
  split; [apply dict_get_set_same|].
  split; [|split; reflexivity].
  intros u Hne. apply dict_get_set_other. congruence.
Qed.

Lemma websocket_authenticates_witness :
  lookup_presence "bob"
    (active_connections
       (world_of (ws_resume env_up 9%nat Connecting (FrameJson (TokStr "tb"))
                    deployment)))
  = Some 9%nat.
Proof.
  apply (websocket_authenticates env_up 9%nat (TokStr "tb") deployment "bob").
  - reflexivity.
  - reflexivity.
Defined.

(** X9. A newcomer whose confirmation cannot be sent still costs the
    user the previous connection: the registration has already replaced
    the entry of the user when the push fails, and the cleanup then
    removes the entry; the user is left absent from the registry even if
    another connection was registered before, and the other users keep
    their entries. *)
Theorem websocket_failed_confirmation_evicts
    (E : Env) (ws : WebSocket) (tok : TokenValue) (w : World) (uid : string) :
  outcome (require_user E tok w) = Ok uid ->
  link_up E (pushes w) = false ->
  List.NoDup (map fst (active_connections w)) ->
  (forall u, lookup_presence u (active_connections w) <> Some ws) ->
  let q := ws_resume E ws Connecting (FrameJson tok) w in
  outcome q = Ok Closed
  /\ trace_of q = [Registered uid ws; Deregistered ws]
  /\ lookup_presence uid (active_connections (world_of q)) = None
  /\ (forall u, u <> uid ->
        lookup_presence u (active_connections (world_of q))
        = lookup_presence u (active_connections w)).
Proof.
  intros Hu Hdown Hnd Habs q.
  pose proof (ws_resume_first_frame E ws tok w) as Hf. cbv zeta in Hf.
  rewrite Hu, Hdown in Hf. unfold q. rewrite Hf.
  destruct (require_user_same_state E tok w) as (_ & _ & Hac).
  unfold outcome, world_of, trace_of in *.
  cbn [fst snd attempt with_connections active_connections].
  rewrite Hac.
  split; [reflexivity|]. split; [reflexivity|].
  now apply deregister_register.
Qed.

Lemma websocket_failed_confirmation_evicts_witness :
  lookup_presence "alice" (active_connections deployment) = Some 5%nat
  /\ lookup_presence "alice"
       (active_connections
          (world_of (ws_resume env_down 9%nat Connecting (FrameJson (TokStr "ta"))
                       deployment)))
     = None.
Proof.
  split; [reflexivity|].
  apply (websocket_failed_confirmation_evicts
           env_down 9%nat (TokStr "ta") deployment "alice").
  - reflexivity.
  - reflexivity.
  - apply List.NoDup_cons; [simpl; tauto | apply List.NoDup_nil].
  - intros u. unfold lookup_presence. cbn [deployment active_connections dict_get].
    destruct (String.eqb "alice" u); intros Heq; discriminate Heq.
Defined.

(** X10. A whole connection with nobody interfering: accept, a first
    frame whose token passes the gate, the confirmation, any number of
    frames from the peer, then a disconnect or an error.  The frames of
    the peer have no effect; at the end the handler has returned, the
    user is absent from the registry, the other users have the entries
    they had, and no stored document has changed.  (For a connection the
    registry did not hold before.) *)
Theorem websocket_session_round_trip
    (E : Env) (ws : WebSocket) (tok : TokenValue) (w : World) (uid : string)
    (frames : list Wake) (last : Wake) :
  outcome (require_user E tok w) = Ok uid ->
  link_up E (pushes w) = true ->
  List.NoDup (map fst (active_connections w)) ->
  (forall u, lookup_presence u (active_connections w) <> Some ws) ->
  forallb is_frame frames = true ->
  is_exit last = true ->
  let r := websocket_endpoint E ws
             (quiet (AcceptDone :: FrameJson tok :: frames ++ [last])) w in
  fst (fst r) = Closed
  /\ snd r = [Registered uid ws; Pushed ws (EvConnected uid); Deregistered ws]
  /\ lookup_presence uid (active_connections (snd (fst r))) = None
  /\ (forall u, u <> uid ->
        lookup_presence u (active_connections (snd (fst r)))
        = lookup_presence u (active_connections w))
  /\ db_session (snd (fst r)) = db_session w
  /\ db_message (snd (fst r)) = db_message w.
Proof.
  intros Hu Hup Hnd Habs Hframes Hlast r.
  assert (Hr : r = (Closed,
                    with_connections (deregister ws)
                      (attempt (with_connections (register uid ws)
                                  (world_of (require_user E tok w)))),
                    [Registered uid ws; Pushed ws (EvConnected uid); Deregistered ws])).
  { unfold r. cbn [quiet map]. rewrite websocket_endpoint_accepted.
    cbn [ws_run].
    pose proof (ws_resume_first_frame E ws tok w) as Hf. cbv zeta in Hf.
    rewrite Hu, Hup in Hf. rewrite Hf. clear Hf.
    rewrite map_app. fold (quiet frames). cbn [map].
    assert (Hrun : forall w0,
               ws_run E ws Authenticated (quiet frames ++ [(fun w => w, last)]) w0
               = (Closed, with_connections (deregister ws) w0, [Deregistered ws])).
    { clear -Hframes Hlast. induction frames as [|k ks IH]; intros w0.
      - cbn [quiet map app ws_run].
        destruct last; try discriminate Hlast; reflexivity.
      - cbn [forallb] in Hframes. apply andb_true_iff in Hframes as [Hk Hks].
        cbn [quiet map app ws_run]. fold (quiet ks).
        destruct k; try discriminate Hk; cbn [ws_resume]; unfold ret;
          rewrite (IH Hks); reflexivity. }
    rewrite Hrun. reflexivity. }
  rewrite Hr.
  destruct (require_user_same_state E tok w) as (Hse & Hdb & Hac).
  unfold world_of in *.
  cbn [fst snd attempt with_connections active_connections db_session db_message].
  rewrite Hse, Hdb, Hac.
  split; [reflexivity|]. split; [reflexivity|].
  destruct (deregister_register ws uid (active_connections w) Hnd Habs) as [H1 H2].
  split; [exact H1|]. split; [exact H2|]. split; reflexivity.
Qed.

Lemma websocket_session_round_trip_witness :
  snd (websocket_endpoint env_up 9%nat
         (quiet (AcceptDone :: FrameJson (TokStr "tb") :: [FrameText; FrameText]
                   ++ [PeerClosed])) deployment)
  = [Registered "bob" 9%nat; Pushed 9%nat (EvConnected "bob"); Deregistered 9%nat].
Proof.
  apply (websocket_session_round_trip
           env_up 9%nat (TokStr "tb") deployment "bob" [FrameText; FrameText] PeerClosed).
  - reflexivity.
  - reflexivity.
  - apply List.NoDup_cons; [simpl; tauto | apply List.NoDup_nil].
  - intros u. unfold lookup_presence. cbn [deployment active_connections dict_get].
    destruct (String.eqb "alice" u); intros Heq; discriminate Heq.
  - reflexivity.
  - reflexivity.
Defined.

(** ** Stored messages under any interleaving *)

Lemma evolves_refl m : evolves m m.
Proof. unfold evolves. intuition. Qed.

Lemma evolves_trans m1 m2 m3 : evolves m1 m2 -> evolves m2 m3 -> evolves m1 m3.
Proof. unfold evolves. intuition congruence. Qed.

Lemma evolves_set_read t m : evolves m (set_read t m).
Proof.
  unfold evolves, set_read. simpl. repeat split; auto; try discriminate;
    try (intros _; eauto).
Qed.

Lemma evolves_set_delivered t m : evolves m (set_delivered t m).
Proof.
  unfold evolves, set_delivered. simpl. repeat split; auto; try discriminate;
    try (intros _; eauto).
Qed.

Lemma lifecycle_set_read t m : lifecycle_ok m -> lifecycle_ok (set_read t m).
Proof.
  unfold lifecycle_ok, set_read. simpl. intros (Hs & _ & _ & _).
  repeat split; auto; try discriminate; try (intros _; eauto).
Qed.

Lemma lifecycle_set_delivered t m :
  lifecycle_ok m -> lifecycle_ok (set_delivered t m).
Proof.
  unfold lifecycle_ok, set_delivered. simpl. intros (Hs & _ & _ & _).
  repeat split; auto; try discriminate; try (intros _; eauto).
Qed.

(** What [send_message] does to the collection before its await. *)
Lemma send_message_dispatch_db E req w :
  db_step (db_message w) (db_message (world_of (send_message_dispatch E req w))).
Proof.
  pose proof (require_user_same_state E (TokStr (SendMessageRequest.token req)) w)
    as (_ & Hdb & _).
  destruct (outcome (require_user E (TokStr (SendMessageRequest.token req)) w))
    as [sender|e] eqn:Hu.
  - pose proof (send_message_dispatch_unfold E req w sender Hu) as Hd.
    cbv zeta in Hd. rewrite Hd. unfold world_of in *.
    cbn [fst snd with_message tick db_message]. rewrite Hdb.
    apply db_insert; [apply not_elem_of_dom, is_fresh|].
    unfold lifecycle_ok. simpl. repeat split; eauto; discriminate.
  - unfold send_message_dispatch, bind.
    rewrite (require_user_raise_inv _ _ _ _ Hu).
    unfold world_of in *. simpl. rewrite Hdb. apply db_same.
Qed.

(** What the resumption of a suspended send does to the collection. *)
Lemma send_message_resume_db E ws ev msg_id w :
  db_step (db_message w)
    (db_message (world_of ((let* _ := send_json E ws ev in
                            send_message_delivered E msg_id) w))).
Proof.
  unfold bind, send_json.
  destruct (link_up E (pushes w)); [|apply db_same].
  unfold send_message_delivered.
  destruct (ObjectId msg_id) as [oid|]; [|apply db_same].
  unfold bind, now_utc, update_one, ret, world_of. simpl. apply db_delivered.
Qed.

(** What a read receipt does to the collection. *)
Lemma mark_read_db E req w :
  db_step (db_message w) (db_message (world_of (mark_read E req w))).
Proof.
  pose proof (require_user_same_state E (TokStr (ReadReceiptRequest.token req)) w)
    as (_ & Hdb & _).
  destruct (outcome (require_user E (TokStr (ReadReceiptRequest.token req)) w))
    as [uid|e] eqn:Hu.
  - destruct (parse_ids (ReadReceiptRequest.message_ids req)) as [bad|ids] eqn:Hp.
    + rewrite (mark_read_bad_ids _ _ _ _ _ Hu Hp). unfold world_of in *. simpl.
      rewrite Hdb. apply db_same.
    + destruct (mark_read_messages _ _ _ _ _ Hu Hp) as [t ->]. apply db_read.
  - rewrite (mark_read_gate_fails _ _ _ _ Hu). unfold world_of in *. simpl.
    rewrite Hdb. apply db_same.
Qed.

Lemma sys_step_db E a s :
  db_step (db_message (sys_world s)) (db_message (sys_world (sys_step E a s))).
Proof.
  destruct a as [req| |req]; cbn [sys_step].
  - pose proof (send_message_dispatch_db E req (sys_world s)) as H.
    unfold world_of in H.
    destruct (send_message_dispatch E req (sys_world s)) as [[[[mid [[ws ev]|]]|e] w1] t1];
      exact H.
  - destruct (pending s) as [|[[msg_id ws] ev] rest]; [apply db_same|].
    apply send_message_resume_db.
  - apply mark_read_db.
Qed.

Lemma db_step_evolves D D' oid m :
  db_step D D' -> D !! oid = Some m ->
  exists m', D' !! oid = Some m' /\ evolves m m'.
Proof.
  intros Hstep Hm. destruct Hstep as [|k msg Hk Hok|t k|ids uid t].
  - exists m. split; [exact Hm | apply evolves_refl].
  - exists m. split; [|apply evolves_refl].
    rewrite lookup_insert_ne; [exact Hm | congruence].
  - destruct (decide (k = oid)) as [->|Hne].
    + exists (set_delivered t m). rewrite lookup_alter_eq, Hm.
      split; [reflexivity | apply evolves_set_delivered].
    + exists m. rewrite lookup_alter_ne by exact Hne.
      split; [exact Hm | apply evolves_refl].
  - rewrite after_read_lookup, Hm. simpl. eexists. split; [reflexivity|].
    destruct (read_filter ids uid oid m);
      [apply evolves_set_read | apply evolves_refl].
Qed.

Lemma db_step_lifecycle D D' :
  db_step D D' ->
  (forall oid m, D !! oid = Some m -> lifecycle_ok m) ->
  forall oid m, D' !! oid = Some m -> lifecycle_ok m.
Proof.
  intros Hstep Hinv oid m'. destruct Hstep as [|k msg Hk Hok|t k|ids uid t].
  - apply Hinv.
  - destruct (decide (k = oid)) as [->|Hne].
    + rewrite lookup_insert_eq. now intros [= <-].
    + rewrite lookup_insert_ne by exact Hne. apply Hinv.
  - destruct (decide (k = oid)) as [->|Hne].
    + rewrite lookup_alter_eq. destruct (D !! oid) as [m|] eqn:Hm; [|discriminate].
      simpl. intros [= <-]. apply lifecycle_set_delivered. eapply Hinv, Hm.
    + rewrite lookup_alter_ne by exact Hne. apply Hinv.
  - rewrite after_read_lookup. destruct (D !! oid) as [m|] eqn:Hm; [|discriminate].
    simpl. intros [= <-].
    destruct (read_filter ids uid oid m);
      [apply lifecycle_set_read|]; eapply Hinv, Hm.
Qed.

(** X11. Whatever sends and read receipts run, in whatever order and
    however the sends are interleaved with them, a stored message stays
    stored with its sender, recipient, body and sent_at; its status does
    not go back to sent; a delivered_at or read_at that was set stays
    set. *)
Theorem stored_messages_are_kept
    (E : Env) (acts : list Action) (s : Sys) (oid : N) (m : Message) :
  db_message (sys_world s) !! oid = Some m ->
  exists m',
    db_message (sys_world (sys_run E acts s)) !! oid = Some m' /\ evolves m m'.
Proof.
  revert s m. induction acts as [|a acts IH]; intros s m Hm.
  - exists m. split; [exact Hm | apply evolves_refl].
  - cbn [sys_run fold_left].
    destruct (db_step_evolves _ _ _ _ (sys_step_db E a s) Hm) as (m1 & Hm1 & He1).
    destruct (IH _ _ Hm1) as (m2 & Hm2 & He2).
    exists m2. split; [exact Hm2 | eapply evolves_trans; eassumption].
Qed.

Lemma stored_messages_are_kept_witness :
  exists m',
    db_message
      (sys_world (sys_run env_up
                    [SendStart yo; MarkRead (ReadReceiptRequest.mk "tb" [id1; id2]);
                     SendResume]
                    (mkSys deployment_bob []))) !! 1%N = Some m'
    /\ evolves hi m'.
Proof.
  apply (stored_messages_are_kept env_up
           [SendStart yo; MarkRead (ReadReceiptRequest.mk "tb" [id1; id2]); SendResume]
           (mkSys deployment_bob []) 1%N hi).
  reflexivity.
Defined.

(** X12. The timestamps of every stored message fit its status, under
    any interleaving of sends and read receipts: if each stored message
    has a sent_at, has no delivered_at or read_at while sent, a
    delivered_at when delivered and a read_at when read, this is still so
    afterwards, for the messages that were stored and for the new
    ones. *)
Theorem lifecycle_is_invariant
    (E : Env) (acts : list Action) (s : Sys) :
  (forall oid m, db_message (sys_world s) !! oid = Some m -> lifecycle_ok m) ->
  forall oid m,
    db_message (sys_world (sys_run E acts s)) !! oid = Some m -> lifecycle_ok m.
Proof.
  revert s. induction acts as [|a acts IH]; intros s Hinv; [exact Hinv|].
  cbn [sys_run fold_left]. apply IH.
  apply (db_step_lifecycle _ _ (sys_step_db E a s) Hinv).
Qed.

Lemma lifecycle_is_invariant_witness :
  lifecycle_ok
    (mkMessage "alice" "bob" (Some "yo") None None
               delivered (Some 101) (Some 104) (Some 103)).
Proof.
  apply (lifecycle_is_invariant env_up
           [SendStart yo; MarkRead (ReadReceiptRequest.mk "tb" [id1; id2]); SendResume]
           (mkSys deployment_bob [])) with (oid := 2%N).
  - intros oid m. cbn [sys_world deployment_bob with_connections deployment db_message].
    intros Hm. apply lookup_singleton_Some in Hm as [_ <-].
    unfold lifecycle_ok, hi. simpl. repeat split; eauto; discriminate.
  - vm_compute. reflexivity.
Defined.

(** ** History *)

Lemma insert_by_perm {A} (key : A -> Z) x l :
  Permutation (insert_by key x l) (x :: l).
Proof.
  induction l as [|y l IH]; simpl; [reflexivity|].
  destruct (key x <=? key y); [reflexivity|].
  rewrite IH. apply perm_swap.
Qed.

Lemma sort_by_perm {A} (key : A -> Z) l : Permutation (sort_by key l) l.
Proof.
  induction l as [|x l IH]; simpl; [reflexivity|].
  rewrite insert_by_perm. now constructor.
Qed.

Lemma insert_by_sorted {A} (key : A -> Z) x l :
  StronglySorted (fun a b => key a <= key b) l ->
  StronglySorted (fun a b => key a <= key b) (insert_by key x l).
Proof.
  induction l as [|y l IH]; intros Hs; simpl.
  - constructor; constructor.
  - apply StronglySorted_inv in Hs as [Hs Hy].
    destruct (Z.leb_spec (key x) (key y)) as [Hle|Hgt].
    + constructor; [now constructor|].
      constructor; [exact Hle|].
      eapply List.Forall_impl; [|exact Hy]. simpl. intros a Ha. lia.
    + constructor; [now apply IH|].
      assert (Hp : Permutation (insert_by key x l) (x :: l)) by apply insert_by_perm.
      eapply Permutation_Forall; [symmetry; exact Hp|].
      constructor; [lia | exact Hy].
Qed.

Lemma sort_by_sorted {A} (key : A -> Z) l :
  StronglySorted (fun a b => key a <= key b) (sort_by key l).
Proof.
  induction l as [|x l IH]; simpl; [constructor|]. now apply insert_by_sorted.
Qed.

Lemma with_keys_spec {A} (key : A -> option Z) l kl :
  with_keys key l = Some kl ->
  map snd kl = l /\ Forall (fun p => key (snd p) = Some (fst p)) kl.
Proof.
  revert kl. induction l as [|x l IH]; simpl; intros kl.
  - intros [= <-]. split; [reflexivity | constructor].
  - destruct (key x) as [k|] eqn:Hk; [|discriminate].
    destruct (with_keys key l) as [kl'|]; [|discriminate].
    intros [= <-]. destruct (IH _ eq_refl) as [Hm Hf].
    simpl. split; [now rewrite Hm | now constructor].
Qed.

Lemma with_keys_total {A} (key : A -> option Z) l :
  Forall (fun x => is_Some (key x)) l -> is_Some (with_keys key l).
Proof.
  induction 1 as [|x l [k Hk] _ [kl IH]]; simpl; [eauto|].
  rewrite Hk, IH. eauto.
Qed.

(** What [sorted] answers: the same elements; with two or more, each has
    a key and the keys ascend. *)
Lemma sorted_by_key_ok {A} (key : A -> option Z) l l' :
  sorted_by_key key l = Ok l' ->
  Permutation l' l
  /\ ((2 <= length l)%nat ->
      exists times, map key l' = map Some times /\ StronglySorted Z.le times).
Proof.
  unfold sorted_by_key.
  destruct l as [|x [|y l]].
  - intros [= <-]. split; [reflexivity | simpl; lia].
  - intros [= <-]. split; [reflexivity | simpl; lia].
  - destruct (with_keys key (x :: y :: l)) as [kl|] eqn:Hk; [|discriminate].
    intros [= <-]. destruct (with_keys_spec _ _ _ Hk) as [Hm Hf].
    split.
    + rewrite <- Hm. apply Permutation_map, sort_by_perm.
    + intros _. exists (map fst (sort_by fst kl)). split.
      * rewrite !map_map. apply map_ext_Forall.
        eapply Permutation_Forall; [symmetry; apply sort_by_perm | exact Hf].
      * pose proof (sort_by_sorted (@fst Z A) kl) as Hs.
        induction Hs as [|p ps Hs IH Hp]; simpl; constructor; [exact IH|].
        rewrite Forall_map. exact Hp.
Qed.

Lemma sorted_by_key_total {A} (key : A -> option Z) l :
  Forall (fun x => is_Some (key x)) l -> exists l', sorted_by_key key l = Ok l'.
Proof.
  intros Hall. unfold sorted_by_key.
  destruct l as [|x [|y l]]; [eauto | eauto |].
  destruct (with_keys_total key _ Hall) as [kl ->]. eauto.
Qed.

(** [get_history] for a caller that passes the gate. *)
Lemma get_history_unfold E created_at tok peer w uid :
  outcome (require_user E (TokStr tok) w) = Ok uid ->
  get_history E created_at tok peer w =
  match sorted_by_key (ts created_at)
          (List.filter (fun d => between uid peer (snd d))
                       (map_to_list (db_message w))) with
  | Ok l => (Ok (map (history_item created_at) l),
             world_of (require_user E (TokStr tok) w), [])
  | Raise e => (Raise e, world_of (require_user E (TokStr tok) w), [])
  end.
Proof.
  intros Hu. unfold get_history. unfold bind at 1.
  rewrite (require_user_ok_inv _ _ _ _ Hu).
  unfold bind, get_documents_message.
  destruct (require_user_same_state E (TokStr tok) w) as (_ & -> & _).
  destruct (sorted_by_key _ _); reflexivity.
Qed.

Lemma between_sym a b m : between a b m = between b a m.
Proof. unfold between. apply orb_comm. Qed.

Lemma between_true uid peer m :
  between uid peer m = true ->
  (sender_id m = uid /\ recipient_id m = peer)
  \/ (sender_id m = peer /\ recipient_id m = uid).
Proof.
  unfold between. intros H. apply orb_true_iff in H as [H|H];
    apply andb_true_iff in H as [H1 H2];
    apply String.eqb_eq in H1; apply String.eqb_eq in H2; auto.
Qed.

(** X13. The history is the conversation, no more and no less: for a
    caller that passes the gate, the list returned holds one entry for
    each stored message sent by the caller to the peer or by the peer to
    the caller, with its id, fields, status and timestamps as stored, and
    nothing else; no message involving a third user is in it. *)
Theorem get_history_is_the_conversation
    (E : Env) (created_at : N -> option Z) (tok peer : string) (w : World)
    (uid : string) (items : list HistoryItem.t) :
  outcome (require_user E (TokStr tok) w) = Ok uid ->
  outcome (get_history E created_at tok peer w) = Ok items ->
  Permutation items
    (map (history_item created_at)
         (List.filter (fun d => between uid peer (snd d))
                      (map_to_list (db_message w))))
  /\ (forall item,
        In item items <->
        exists oid m,
          db_message w !! oid = Some m
          /\ between uid peer m = true
          /\ item = history_item created_at (oid, m))
  /\ (forall item,
        In item items ->
        (HistoryItem.sender_id item = uid /\ HistoryItem.recipient_id item = peer)
        \/ (HistoryItem.sender_id item = peer /\ HistoryItem.recipient_id item = uid)).
Proof.
  intros Hu Ho. rewrite (get_history_unfold _ _ _ _ _ _ Hu) in Ho.
  destruct (sorted_by_key _ _) as [l|e] eqn:Hs;
    unfold outcome in Ho; simpl in Ho; [|discriminate Ho].
  injection Ho as <-.
  destruct (sorted_by_key_ok _ _ _ Hs) as [Hperm _].
  assert (Hin : forall item,
             In item (map (history_item created_at) l) <->
             exists oid m,
               db_message w !! oid = Some m
               /\ between uid peer m = true
               /\ item = history_item created_at (oid, m)).
  { intros item. rewrite in_map_iff. split.
    - intros ([oid m] & <- & Hd).
      apply (Permutation_in _ Hperm) in Hd. apply filter_In in Hd as [Hd Hb].
      apply list_elem_of_In, elem_of_map_to_list in Hd. eauto.
    - intros (oid & m & Hm & Hb & ->). exists (oid, m). split; [reflexivity|].
      apply (Permutation_in _ (Permutation_sym Hperm)). apply filter_In.
      split; [|exact Hb]. now apply list_elem_of_In, elem_of_map_to_list. }
  split; [now apply Permutation_map|]. split; [exact Hin|].
  intros item Hitem. apply Hin in Hitem as (oid & m & _ & Hb & ->).
  simpl. now apply between_true.
Qed.

Lemma get_history_is_the_conversation_witness :
  Permutation
    [HistoryItem.mk id2 "bob" "alice" (Some "hello?") None None sent (Some 5) None None;
     HistoryItem.mk id1 "alice" "bob" (Some "hi") None None
                    read (Some 10) (Some 11) (Some 12)]
    (map (history_item (fun _ => None))
         (List.filter (fun d => between "alice" "bob" (snd d))
                      (map_to_list (db_message chat)))).
Proof.
  apply (get_history_is_the_conversation
           env_up (fun _ => None) "ta" "bob" chat "alice").
  - reflexivity.
  - vm_compute. reflexivity.
Defined.

(** X14. The history is in ascending order of send time: when it has two
    entries or more, every entry has a sent_at and these do not
    decrease along the list. *)
Theorem get_history_ascending
    (E : Env) (created_at : N -> option Z) (tok peer : string) (w : World)
    (uid : string) (items : list HistoryItem.t) :
  outcome (require_user E (TokStr tok) w) = Ok uid ->
  outcome (get_history E created_at tok peer w) = Ok items ->
  (2 <= length items)%nat ->
  exists times,
    map HistoryItem.sent_at items = map Some times
    /\ StronglySorted Z.le times.
Proof.
  intros Hu Ho Hlen. rewrite (get_history_unfold _ _ _ _ _ _ Hu) in Ho.
  destruct (sorted_by_key _ _) as [l|e] eqn:Hs;
    unfold outcome in Ho; simpl in Ho; [|discriminate Ho].
  injection Ho as <-.
  destruct (sorted_by_key_ok _ _ _ Hs) as [Hperm Hsorted].
  rewrite length_map, (Permutation_length Hperm) in Hlen.
  destruct (Hsorted Hlen) as (times & Hkeys & Hasc).
  exists times. split; [|exact Hasc].
  rewrite map_map. exact Hkeys.
Qed.

Lemma get_history_ascending_witness :
  exists times,
    map HistoryItem.sent_at
      [HistoryItem.mk id2 "bob" "alice" (Some "hello?") None None sent (Some 5) None None;
       HistoryItem.mk id1 "alice" "bob" (Some "hi") None None
                      read (Some 10) (Some 11) (Some 12)]
    = map Some times
    /\ StronglySorted Z.le times.
Proof.
  apply (get_history_ascending env_up (fun _ => None) "ta" "bob" chat "alice").
  - reflexivity.
  - vm_compute. reflexivity.
  - simpl. lia.
Defined.

(** X15. [get_history] only reads: whatever the token and the peer, no
    stored document and no registry entry changes, no push is attempted
    and nothing is pushed; without a session the answer is 401. *)
Theorem get_history_reads_only
    (E : Env) (created_at : N -> option Z) (tok peer : string) (w : World) :
  let r := get_history E created_at tok peer w in
  same_state w (world_of r)
  /\ pushes (world_of r) = pushes w
  /\ trace_of r = []
  /\ (forall e, outcome (require_user E (TokStr tok) w) = Raise e ->
        outcome r = Raise e /\ http_status (outcome r) = 401%nat).
Proof.
  cbv zeta.
  pose proof (require_user_same_state E (TokStr tok) w) as Hsame.
  destruct (require_user_reads_only E (TokStr tok) w) as (_ & _ & _ & Hpush & _).
  destruct (outcome (require_user E (TokStr tok) w)) as [uid|e] eqn:Hu.
  - rewrite (get_history_unfold _ _ _ _ _ _ Hu).
    destruct (sorted_by_key _ _); unfold outcome, world_of, trace_of in *; simpl;
      (split; [exact Hsame|]); (split; [exact Hpush|]);
      (split; [reflexivity|]); intros e' He'; discriminate He'.
  - assert (Hr : get_history E created_at tok peer w
                 = (Raise e, world_of (require_user E (TokStr tok) w), [])).
    { unfold get_history, bind. now rewrite (require_user_raise_inv _ _ _ _ Hu). }
    rewrite Hr. unfold outcome, world_of, trace_of in *. simpl.
    split; [exact Hsame|]. split; [exact Hpush|]. split; [reflexivity|].
    intros e' [= <-]. split; [reflexivity|].
    destruct (require_user_raises_401 E (TokStr tok) w e) as [detail ->];
      [exact Hu | reflexivity].
Qed.

Lemma get_history_reads_only_witness :
  outcome (get_history env_up (fun _ => None) "stolen" "bob" chat)
  = Raise (HTTPException 401 "Invalid token").
Proof.
  apply (proj2 (proj2 (proj2 (get_history_reads_only
                                env_up (fun _ => None) "stolen" "bob" chat)))
           (HTTPException 401 "Invalid token")).
  reflexivity.
Defined.

(** X16. Both parties see the same conversation, and see it again: the
    answer depends on the stored messages and on the pair of users only.
    When the caller's session resolves to A and the peer given is B, the
    answer is the one B gets with peer A, and the one A gets on any later
    call, as long as the stored messages are the same. *)
Theorem get_history_same_for_both
    (E E' : Env) (created_at : N -> option Z)
    (tokA tokB : string) (A B : string) (w w' : World) :
  outcome (require_user E (TokStr tokA) w) = Ok A ->
  outcome (require_user E' (TokStr tokB) w') = Ok B ->
  db_message w' = db_message w ->
  outcome (get_history E' created_at tokB A w')
  = outcome (get_history E created_at tokA B w)
  /\ (forall tokA', outcome (require_user E' (TokStr tokA') w') = Ok A ->
        outcome (get_history E' created_at tokA' B w')
        = outcome (get_history E created_at tokA B w)).
Proof.
  intros HA HB Hdb. split.
  - rewrite (get_history_unfold _ _ _ _ _ _ HA), (get_history_unfold _ _ _ _ _ _ HB).
    rewrite Hdb.
    rewrite (List.filter_ext (fun d => between B A (snd d))
                             (fun d => between A B (snd d)))
      by (intros d; apply between_sym).
    destruct (sorted_by_key _ _); reflexivity.
  - intros tokA' HA'.
    rewrite (get_history_unfold _ _ _ _ _ _ HA), (get_history_unfold _ _ _ _ _ _ HA').
    rewrite Hdb. destruct (sorted_by_key _ _); reflexivity.
Qed.

Lemma get_history_same_for_both_witness :
  outcome (get_history env_up (fun _ => None) "tb" "alice" chat)
  = outcome (get_history env_up (fun _ => None) "ta" "bob" chat).
Proof.
  apply (get_history_same_for_both env_up env_up (fun _ => None)
           "ta" "tb" "alice" "bob" chat chat).
  - reflexivity.
  - reflexivity.
  - reflexivity.
Defined.

(** X17. [get_history] answers whenever the stored messages have a
    sent_at, as those written by [send_message] do: for a caller that
    passes the gate the sort then has every key and nothing is raised. *)
Theorem get_history_answers
    (E : Env) (created_at : N -> option Z) (tok peer : string) (w : World)
    (uid : string) :
  outcome (require_user E (TokStr tok) w) = Ok uid ->
  (forall oid m, db_message w !! oid = Some m -> is_Some (sent_at m)) ->
  exists items, outcome (get_history E created_at tok peer w) = Ok items.
Proof.
  intros Hu Hall. rewrite (get_history_unfold _ _ _ _ _ _ Hu).
  destruct (sorted_by_key_total (ts created_at)
              (List.filter (fun d => between uid peer (snd d))
                           (map_to_list (db_message w)))) as [l ->].
  - apply List.Forall_forall. intros [oid m] Hd.
    apply filter_In in Hd as [Hd _].
    apply list_elem_of_In, elem_of_map_to_list in Hd.
    destruct (Hall _ _ Hd) as [t Ht]. unfold ts. simpl. rewrite Ht. eauto.
  - eexists. reflexivity.
Qed.

Lemma get_history_answers_witness :
  exists items, outcome (get_history env_up (fun _ => None) "ta" "bob" chat) = Ok items.
Proof.
  apply (get_history_answers env_up (fun _ => None) "ta" "bob" chat "alice").
  - reflexivity.
  - intros oid m. unfold chat. cbn [db_message].
    intros Hm.
    apply lookup_insert_Some in Hm as [[_ <-]|[_ Hm]]; [simpl; eauto|].
    apply lookup_insert_Some in Hm as [[_ <-]|[_ Hm]]; [simpl; eauto|].
    apply lookup_singleton_Some in Hm as [_ <-]. simpl. eauto.
Defined.

(** ** Accounts *)

Lemma nth_digit_is_digit i :
  is_digit (nth (i mod 10) (list_ascii_of_string "0123456789") "0"%char) = true.
Proof.
  assert (H : (i mod 10 < 10)%nat) by (apply Nat.mod_upper_bound; lia).
  destruct (i mod 10)%nat as [|[|[|[|[|[|[|[|[|[|n]]]]]]]]]]; try reflexivity; lia.
Qed.

(** X18. [generate_code(n)] is a string of exactly [n] decimal digits,
    whatever is drawn. *)
Theorem generate_code_digits (choice : nat -> nat) (n : nat) :
  String.length (generate_code choice n) = n
  /\ forallb is_digit (list_ascii_of_string (generate_code choice n)) = true.
Proof.
  unfold generate_code.
  rewrite list_ascii_of_string_of_list_ascii.
  split.
  - assert (Hlen : forall l, String.length (string_of_list_ascii l) = length l).
    { induction l as [|c l IH]; simpl; [reflexivity | now rewrite IH]. }
    now rewrite Hlen, length_map, length_seq.
  - apply forallb_forall. intros c Hc. apply in_map_iff in Hc as (i & <- & _).
    apply nth_digit_is_digit.
Qed.

Lemma sort_by_head {A} (key : A -> Z) (l : list A) :
  l <> [] ->
  exists h t, sort_by key l = h :: t /\ In h l /\ forall x, In x l -> key h <= key x.
Proof.
  intros Hne.
  pose proof (sort_by_perm key l) as Hperm.
  pose proof (sort_by_sorted key l) as Hs.
  destruct (sort_by key l) as [|h t].
  - apply Permutation_nil in Hperm. contradiction.
  - exists h, t. split; [reflexivity|].
    split; [apply (Permutation_in _ Hperm); now left|].
    intros x Hx. apply (Permutation_in _ (Permutation_sym Hperm)) in Hx.
    apply StronglySorted_inv in Hs as [_ Ht].
    destruct Hx as [<-|Hx]; [lia|].
    rewrite List.Forall_forall in Ht. now apply Ht.
Qed.

(** The record created strictly last comes first. *)
Lemma latest_first_head records v c :
  In v records ->
  Verification.created_at v = Some c ->
  (forall v', In v' records ->
     v' = v \/ exists c', Verification.created_at v' = Some c' /\ c' < c) ->
  exists rest, latest_first records = Ok (v :: rest).
Proof.
  intros Hin Hc Hmax. unfold latest_first, sorted_by_key.
  destruct records as [|x [|y l]]; [destruct Hin | |].
  - destruct Hin as [->|[]]. eauto.
  - set (records := x :: y :: l) in *.
    assert (Hall : Forall (fun v0 => is_Some (Z.opp <$> Verification.created_at v0))
                          records).
    { apply List.Forall_forall. intros v' Hv'.
      destruct (Hmax _ Hv') as [->|(c' & Hc' & _)].
      - rewrite Hc. simpl. eauto.
      - rewrite Hc'. simpl. eauto. }
    destruct (with_keys_total _ _ Hall) as [kl Hk]. rewrite Hk.
    destruct (with_keys_spec _ _ _ Hk) as [Hm Hf].
    assert (Hkl : kl <> []).
    { intros ->. simpl in Hm. unfold records in Hm. discriminate Hm. }
    destruct (sort_by_head (@fst Z Verification.t) kl Hkl) as (h & t & Hsort & Hh & Hle).
    rewrite Hsort. cbn [map]. exists (map snd t). do 2 f_equal.
    rewrite List.Forall_forall in Hf.
    assert (Hv : exists p, In p kl /\ snd p = v).
    { rewrite <- Hm in Hin. apply in_map_iff in Hin as (p & Hp & Hin). eauto. }
    destruct Hv as (p & Hp & Hpv).
    pose proof (Hf _ Hp) as Hkp. rewrite Hpv, Hc in Hkp. simpl in Hkp.
    injection Hkp as Hkp.
    pose proof (Hle _ Hp) as Hhp.
    assert (Hhin : In (snd h) records) by (rewrite <- Hm; now apply in_map).
    destruct (Hmax _ Hhin) as [Heq|(c' & Hc' & Hlt)]; [exact Heq|].
    pose proof (Hf _ Hh) as Hkh. rewrite Hc' in Hkh. simpl in Hkh.
    injection Hkh as Hkh. lia.
Qed.

(** [verify_code] once the latest record is known. *)
Lemma verify_code_on_latest E tok req a w latest rest :
  latest_first (records_of (VerifyCodeRequest.phone req) a) = Ok (latest :: rest) ->
  verify_code E tok req (a, w) =
  let (expired, w1) :=
    match Verification.expires_at latest with
    | Some e => (e <? clock E (clock_reads w), tick w)
    | None => (false, w)
    end in
  if expired then (Raise (HTTPException 400 "Code expired"), (a, w1))
  else if negb (String.eqb (Verification.code latest) (VerifyCodeRequest.code req))
  then (Raise (HTTPException 400 "Invalid code"), (a, w1))
  else
    let (uid, a1) :=
      match users_with (VerifyCodeRequest.phone req) a with
      | user_doc :: _ => (str_oid (fst user_doc), a)
      | [] =>
          create_document_user
            (User.mk (VerifyCodeRequest.phone req)
                     (name_or_default (VerifyCodeRequest.name req))
                     (VerifyCodeRequest.photo_url req) None)
            a
      end in
    (Ok (tok, uid),
     (a1, add_session
            (mkSession uid tok (Some (clock E (clock_reads w1) + days 30)))
            (tick w1))).
Proof.
  intros Hl. unfold verify_code.
  fold (records_of (VerifyCodeRequest.phone req) a).
  fold (users_with (VerifyCodeRequest.phone req) a).
  destruct (records_of (VerifyCodeRequest.phone req) a) as [|r0 rs] eqn:Hr.
  - discriminate Hl.
  - rewrite Hl. reflexivity.
Qed.

(** X19. A verification that fails writes nothing: whatever the reason
    (no verification started, code expired, invalid code), no user and no
    session is created and the verification records are as before. *)
Theorem verify_code_failure_writes_nothing
    (E : Env) (tok : string) (req : VerifyCodeRequest.t)
    (a : Accounts) (w : World) (e : Exn) :
  fst (verify_code E tok req (a, w)) = Raise e ->
  fst (snd (verify_code E tok req (a, w))) = a
  /\ same_state w (snd (snd (verify_code E tok req (a, w)))).
Proof.
  unfold verify_code.
  destruct (List.filter _ (db_verification a)) as [|r0 rs].
  - intros _. split; [reflexivity | apply same_state_refl].
  - destruct (latest_first (r0 :: rs)) as [[|latest l]|e'].
    + intros _. split; [reflexivity | apply same_state_refl].
    + destruct (Verification.expires_at latest) as [x|].
      * destruct (x <? clock E (clock_reads w)); simpl;
          [intros _; split; [reflexivity | apply same_state_tick]|].
        destruct (String.eqb (Verification.code latest) (VerifyCodeRequest.code req));
          simpl; [|intros _; split; [reflexivity | apply same_state_tick]].
        destruct (List.filter _ (db_user a)) as [|u us]; simpl; discriminate.
      * simpl.
        destruct (String.eqb (Verification.code latest) (VerifyCodeRequest.code req));
          simpl; [|intros _; split; [reflexivity | apply same_state_refl]].
        destruct (List.filter _ (db_user a)) as [|u us]; simpl; discriminate.
    + intros _. split; [reflexivity | apply same_state_refl].
Qed.

Lemma verify_code_failure_writes_nothing_witness :
  fst (snd (verify_code env_up "tok"
              (VerifyCodeRequest.mk "+100" "000000" None None) signup))
  = fst signup.
Proof.
  apply (verify_code_failure_writes_nothing
           env_up "tok" (VerifyCodeRequest.mk "+100" "000000" None None)
           (fst signup) (snd signup) (HTTPException 400 "Invalid code")).
  reflexivity.
Defined.

(** What a verification that succeeds has done. *)
Lemma verify_code_ok_inv E tok req a w t uid :
  fst (verify_code E tok req (a, w)) = Ok (t, uid) ->
  t = tok
  /\ (exists w1,
        (w1 = w \/ w1 = tick w)
        /\ snd (snd (verify_code E tok req (a, w)))
           = add_session
               (mkSession uid tok (Some (clock E (clock_reads w1) + days 30)))
               (tick w1))
  /\ ((exists u us,
         users_with (VerifyCodeRequest.phone req) a = u :: us
         /\ uid = str_oid (fst u)
         /\ fst (snd (verify_code E tok req (a, w))) = a)
      \/ (users_with (VerifyCodeRequest.phone req) a = []
          /\ (uid, fst (snd (verify_code E tok req (a, w))))
             = create_document_user
                 (User.mk (VerifyCodeRequest.phone req)
                          (name_or_default (VerifyCodeRequest.name req))
                          (VerifyCodeRequest.photo_url req) None)
                 a)).
Proof.
  unfold verify_code. fold (users_with (VerifyCodeRequest.phone req) a).
  destruct (List.filter _ (db_verification a)) as [|r0 rs]; [discriminate|].
  destruct (latest_first (r0 :: rs)) as [[|latest l]|e']; [discriminate| |discriminate].
  destruct (Verification.expires_at latest) as [x|].
  - destruct (x <? clock E (clock_reads w)); simpl; [discriminate|].
    destruct (String.eqb (Verification.code latest) (VerifyCodeRequest.code req));
      simpl; [|discriminate].
    destruct (users_with (VerifyCodeRequest.phone req) a) as [|u us]; simpl;
      intros [= <- <-]; (split; [reflexivity|]);
      (split; [exists (tick w); split; [now right | reflexivity]|]).
    + right. split; reflexivity.
    + left. exists u, us. repeat split.
  - simpl.
    destruct (String.eqb (Verification.code latest) (VerifyCodeRequest.code req));
      simpl; [|discriminate].
    destruct (users_with (VerifyCodeRequest.phone req) a) as [|u us]; simpl;
      intros [= <- <-]; (split; [reflexivity|]);
      (split; [exists w; split; [now left | reflexivity]|]).
    + right. split; reflexivity.
    + left. exists u, us. repeat split.
Qed.

(** X20. Only the record created last counts.  When one verification
    record of the phone number was created strictly after the others, the
    answer depends on that record alone: past its expiry, 400 "Code
    expired"; otherwise 400 "Invalid code" unless the code given is its
    code, whatever codes the older records hold; and with its code the
    verification succeeds and returns the token drawn. *)
Theorem verify_code_latest_record_decides
    (E : Env) (tok : string) (req : VerifyCodeRequest.t)
    (a : Accounts) (w : World) (v : Verification.t) (c : Z) :
  In v (records_of (VerifyCodeRequest.phone req) a) ->
  Verification.created_at v = Some c ->
  (forall v', In v' (records_of (VerifyCodeRequest.phone req) a) ->
     v' = v \/ exists c', Verification.created_at v' = Some c' /\ c' < c) ->
  let r := verify_code E tok req (a, w) in
  let now := clock E (clock_reads w) in
  (forall e, Verification.expires_at v = Some e -> e < now ->
     fst r = Raise (HTTPException 400 "Code expired"))
  /\ ((forall e, Verification.expires_at v = Some e -> now <= e) ->
      Verification.code v <> VerifyCodeRequest.code req ->
      fst r = Raise (HTTPException 400 "Invalid code"))
  /\ ((forall e, Verification.expires_at v = Some e -> now <= e) ->
      Verification.code v = VerifyCodeRequest.code req ->
      exists uid, fst r = Ok (tok, uid)).
Proof.
  intros Hin Hc Hmax r now.
  destruct (latest_first_head _ _ _ Hin Hc Hmax) as [rest Hl].
  pose proof (verify_code_on_latest E tok req a w v rest Hl) as Hv.
  fold r in Hv. cbv zeta in Hv. split; [|split].
  - intros e He Hlt. rewrite Hv, He.
    apply Z.ltb_lt in Hlt. fold now. now rewrite Hlt.
  - intros Hlive Hne. rewrite Hv.
    apply String.eqb_neq in Hne.
    destruct (Verification.expires_at v) as [e|].
    + specialize (Hlive e eq_refl). apply Z.ltb_ge in Hlive.
      fold now. now rewrite Hlive, Hne.
    + now rewrite Hne.
  - intros Hlive Heq. rewrite Hv.
    apply String.eqb_eq in Heq.
    destruct (Verification.expires_at v) as [e|].
    + specialize (Hlive e eq_refl). apply Z.ltb_ge in Hlive.
      fold now. rewrite Hlive, Heq. simpl.
      destruct (users_with _ a); simpl; eauto.
    + rewrite Heq. simpl. destruct (users_with _ a); simpl; eauto.
Qed.

Lemma verify_code_latest_record_decides_witness :
  fst (verify_code env_up "tok"
         (VerifyCodeRequest.mk "+100" "000000" None None) signup)
  = Raise (HTTPException 400 "Invalid code").
Proof.
  apply (proj1 (proj2 (verify_code_latest_record_decides
                         env_up "tok" (VerifyCodeRequest.mk "+100" "000000" None None)
                         (fst signup) (snd signup)
                         (Verification.mk "+100" "307418" (Some 600000100) 0 (Some 101))
                         101
                         (or_introl eq_refl) eq_refl
                         (fun v' H => match H with
                                      | or_introl Heq => or_introl (eq_sym Heq)
                                      | or_intror F => match F with end
                                      end)))).
  - intros e [= <-]. vm_compute. discriminate.
  - intros H. discriminate H.
Defined.

(** X21. What a verification that succeeds writes.  The token returned is
    the one drawn; one session for it and for the user id returned is
    appended, expiring thirty days after the time read; the verification
    records are untouched, so the code can be used again; an existing
    user with the phone number is reused and not modified, and only when
    there is none a user is created, with a new id, the phone number and
    the name given or "New User"; messages and registry are as before. *)
Theorem verify_code_success_writes
    (E : Env) (tok : string) (req : VerifyCodeRequest.t)
    (a : Accounts) (w : World) (t uid : string) :
  fst (verify_code E tok req (a, w)) = Ok (t, uid) ->
  let a' := fst (snd (verify_code E tok req (a, w))) in
  let w' := snd (snd (verify_code E tok req (a, w))) in
  t = tok
  /\ db_verification a' = db_verification a
  /\ (exists exp, db_session w' = db_session w ++ [mkSession uid tok (Some exp)])
  /\ db_message w' = db_message w
  /\ active_connections w' = active_connections w
  /\ ((exists u us,
         users_with (VerifyCodeRequest.phone req) a = u :: us
         /\ uid = str_oid (fst u)
         /\ db_user a' = db_user a)
      \/ (users_with (VerifyCodeRequest.phone req) a = []
          /\ exists oid,
               uid = str_oid oid
               /\ (forall p, In p (db_user a) -> fst p <> oid)
               /\ db_user a'
                  = db_user a
                    ++ [(oid, User.mk (VerifyCodeRequest.phone req)
                                      (name_or_default (VerifyCodeRequest.name req))
                                      (VerifyCodeRequest.photo_url req) None)])).
Proof.
  intros Hok a' w'.
  destruct (verify_code_ok_inv _ _ _ _ _ _ _ Hok) as (Ht & (w1 & Hw1 & Hw') & Hu).
  fold w' in Hw'. fold a' in Hu.
  split; [exact Ht|].
  assert (Hs : exists exp, db_session w' = db_session w ++ [mkSession uid tok (Some exp)]
                /\ db_message w' = db_message w
                /\ active_connections w' = active_connections w).
  { rewrite Hw'. destruct Hw1 as [->| ->]; eexists; simpl; repeat split. }
  destruct Hs as (exp & Hse & Hdb & Hac).
  destruct Hu as [(u & us & Hus & Huid & Ha)|(Hnone & Hc)].
  - rewrite Ha. split; [reflexivity|]. split; [eauto|].
    split; [exact Hdb|]. split; [exact Hac|]. left. eauto.
  - unfold create_document_user in Hc. injection Hc as Huid Ha.
    rewrite Ha. simpl. split; [reflexivity|]. split; [eauto|].
    split; [exact Hdb|]. split; [exact Hac|]. right. split; [exact Hnone|].
    eexists. split; [exact Huid|]. split; [|reflexivity].
    intros p Hp Heq.
    apply (is_fresh (list_to_set (map fst (db_user a)) : gset N)).
    rewrite <- Heq. apply elem_of_list_to_set, list_elem_of_In.
    now apply in_map.
Qed.

Lemma verify_code_success_writes_witness :
  db_verification
    (fst (snd (verify_code env_up "tok"
                 (VerifyCodeRequest.mk "+100" "307418" None None) signup)))
  = db_verification (fst signup).
Proof.
  apply (verify_code_success_writes
           env_up "tok" (VerifyCodeRequest.mk "+100" "307418" None None)
           (fst signup) (snd signup) "tok" "000000000000000000000000").
  reflexivity.
Defined.

Lemma filter_none {A} (p : A -> bool) (l : list A) :
  (forall x, In x l -> p x = false) -> List.filter p l = [].
Proof.
  induction l as [|x l IH]; simpl; intros H; [reflexivity|].
  rewrite (H x) by now left. apply IH. intros y Hy. apply H. now right.
Qed.



(** X23. A verification started can be completed: [start_verification]
    stores a record for the phone number and returns its code, six
    digits; if the store's stamp on that record is later than the stamps
    of the earlier records of the number and the ten minutes have not
    run out when [verify_code] reads the clock, [verify_code] with the
    code returned succeeds. *)
Theorem start_then_verify
    (E : Env) (choice : nat -> nat) (phone tok : string)
    (name_ photo : option string) (a : Accounts) (w : World) :
  (forall v, In v (records_of phone a) ->
     exists c', Verification.created_at v = Some c'
                /\ c' < clock E (S (clock_reads w))) ->
  clock E (S (S (clock_reads w))) <= clock E (clock_reads w) + minutes 10 ->
  let r1 := start_verification E choice (StartVerificationRequest.mk phone) (a, w) in
  exists code_ uid,
    fst r1 = Ok (phone, code_, clock E (clock_reads w) + minutes 10)
    /\ String.length code_ = 6%nat
    /\ fst (verify_code E tok (VerifyCodeRequest.mk phone code_ name_ photo) (snd r1))
       = Ok (tok, uid).
Proof.
  intros Hold Hlive r1.
  set (code_ := generate_code choice 6).
  set (v := Verification.mk phone code_ (Some (clock E (clock_reads w) + minutes 10)) 0
                            (Some (clock E (S (clock_reads w))))).
  assert (Hr1 : r1 = (Ok (phone, code_, clock E (clock_reads w) + minutes 10),
                      (mkAccounts (db_verification a ++ [v]) (db_user a),
                       tick (tick w)))) by reflexivity.
  set (a1 := mkAccounts (db_verification a ++ [v]) (db_user a)) in *.
  assert (Hrec : records_of phone a1 = records_of phone a ++ [v]).
  { unfold records_of, a1. cbn [db_verification]. rewrite List.filter_app.
    simpl. now rewrite String.eqb_refl. }
  assert (Hl : exists rest, latest_first (records_of phone a1) = Ok (v :: rest)).
  { apply (latest_first_head _ v (clock E (S (clock_reads w)))).
    - rewrite Hrec. apply in_or_app. right. now left.
    - reflexivity.
    - intros v' Hv'. rewrite Hrec in Hv'. apply in_app_or in Hv' as [Hv'|[<-|[]]].
      + right. now apply Hold.
      + now left. }
  destruct Hl as [rest Hl].
  pose proof (verify_code_on_latest E tok
                (VerifyCodeRequest.mk phone code_ name_ photo) a1 (tick (tick w))
                v rest Hl) as Hv.
  cbv zeta in Hv. cbn [Verification.expires_at Verification.code v
                       VerifyCodeRequest.code VerifyCodeRequest.phone
                       clock_reads tick] in Hv.
  apply Z.ltb_ge in Hlive. rewrite Hlive, String.eqb_refl in Hv. cbn [negb] in Hv.
  exists code_. rewrite Hr1. cbn [fst snd]. rewrite Hv.
  destruct (users_with phone a1) as [|u us]; eexists;
    (split; [reflexivity|]); (split; [reflexivity | reflexivity]).
Qed.

Lemma start_then_verify_witness :
  exists code_ uid,
    fst (start_verification env_up (fun i => i) (StartVerificationRequest.mk "+200")
           signup)
    = Ok ("+200", code_, clock env_up (clock_reads (snd signup)) + minutes 10)
    /\ String.length code_ = 6%nat
    /\ fst (verify_code env_up "tok"
              (VerifyCodeRequest.mk "+200" code_ (Some "Dee") None)
              (snd (start_verification env_up (fun i => i)
                      (StartVerificationRequest.mk "+200") signup)))
       = Ok ("tok", uid).
Proof.
  apply (start_then_verify env_up (fun i => i) "+200" "tok" (Some "Dee") None
           (fst signup) (snd signup)).
  - intros v Hv. simpl in Hv. destruct Hv.
  - vm_compute. discriminate.
Defined.

(** X24. One account per phone number: two verifications of the same
    number that succeed one after the other, with the user collection
    untouched in between, return the same user id, whether the first
    found the user or created it. *)
Theorem verify_code_same_account
    (E E' : Env) (tok tok' : string) (req req' : VerifyCodeRequest.t)
    (a : Accounts) (w w' : World) (t t' uid uid' : string) :
  fst (verify_code E tok req (a, w)) = Ok (t, uid) ->
  VerifyCodeRequest.phone req' = VerifyCodeRequest.phone req ->
  fst (verify_code E' tok' req' (fst (snd (verify_code E tok req (a, w))), w'))
  = Ok (t', uid') ->
  uid' = uid.
Proof.
  intros H1 Hphone H2.
  destruct (verify_code_ok_inv _ _ _ _ _ _ _ H1) as (_ & _ & Hu).
  destruct (verify_code_ok_inv _ _ _ _ _ _ _ H2) as (_ & _ & Hu').
  rewrite Hphone in Hu'.
  set (a1 := fst (snd (verify_code E tok req (a, w)))) in *.
  assert (Hfirst : exists oid u us,
             users_with (VerifyCodeRequest.phone req) a1 = (oid, u) :: us
             /\ uid = str_oid oid).
  { destruct Hu as [([oid u] & us & Hus & Huid & Ha)|(Hnone & Hc)].
    - rewrite Ha. eauto.
    - unfold create_document_user in Hc. injection Hc as Huid Ha.
      rewrite Ha. unfold users_with in *. cbn [db_user].
      rewrite List.filter_app, Hnone. simpl. rewrite String.eqb_refl. eauto. }
  destruct Hfirst as (oid & u & us & Hus & ->).
  destruct Hu' as [(u' & us' & Hus' & Huid' & _)|(Hnone' & _)].
  - rewrite Hus in Hus'. injection Hus' as <- _. exact Huid'.
  - rewrite Hus in Hnone'. discriminate Hnone'.
Qed.

Lemma verify_code_same_account_witness :
  "000000000000000000000000" = "000000000000000000000000".
Proof.
  apply (verify_code_same_account
           env_up env_up "tok" "tok2"
           (VerifyCodeRequest.mk "+100" "307418" None None)
           (VerifyCodeRequest.mk "+100" "307418" (Some "Zed") None)
           (fst signup) (snd signup) deployment
           "tok" "tok2" "000000000000000000000000" "000000000000000000000000").
  - reflexivity.
  - reflexivity.
  - reflexivity.
Defined.

(** ** Contacts *)

(** The dict holds a phone number exactly when a stored user has it and
    it is among the numbers asked for; what it holds is such a user. *)
Lemma by_phone_lookup phones a p :
  (forall u, by_phone phones a !! p = Some u ->
     In u (db_user a) /\ User.phone (snd u) = p /\ In p phones)
  /\ (In p phones -> registered a p = true -> is_Some (by_phone phones a !! p))
  /\ (registered a p = false -> by_phone phones a !! p = None).
Proof.
  assert (H1 : forall u, by_phone phones a !! p = Some u ->
                 In u (db_user a) /\ User.phone (snd u) = p /\ In p phones).
  { intros u Hu. unfold by_phone in Hu.
    apply elem_of_list_to_map_2, list_elem_of_In in Hu.
    apply in_rev, in_map_iff in Hu as (u' & Heq & Hin).
    injection Heq as <- ->. apply filter_In in Hin as [Hin Hph].
    split; [exact Hin|]. split; [reflexivity|].
    apply existsb_exists in Hph as (q & Hq & Heq).
    apply String.eqb_eq in Heq. now subst q. }
  split; [exact H1|]. split.
  - intros Hp Hreg.
    destruct (by_phone phones a !! p) as [u|] eqn:Hl; [eauto|].
    exfalso. unfold by_phone in Hl. apply not_elem_of_list_to_map_2 in Hl.
    apply Hl. unfold registered in Hreg.
    apply existsb_exists in Hreg as (u & Hu & Heq). apply String.eqb_eq in Heq.
    apply list_elem_of_In. apply in_map_iff. exists (p, u). split; [reflexivity|].
    apply -> in_rev. apply in_map_iff. exists u. split; [now rewrite Heq|].
    apply filter_In. split; [exact Hu|].
    apply existsb_exists. exists p. split; [exact Hp|]. now apply String.eqb_eq.
  - intros Hreg. destruct (by_phone phones a !! p) as [u|] eqn:Hl; [|reflexivity].
    destruct (H1 u eq_refl) as (Hin & Hph & _).
    assert (Ht : registered a p = true).
    { unfold registered. apply existsb_exists. exists u. split; [exact Hin|].
      now apply String.eqb_eq. }
    rewrite Ht in Hreg. discriminate Hreg.
Qed.

Lemma sync_loop_spec uid known contacts :
  forall links,
    sync_loop uid known contacts links
    = (links ++ map (link_of uid) (matched_pairs known contacts),
       map (fun cu => contact_info (snd cu)) (matched_pairs known contacts)).
Proof.
  induction contacts as [|c rest IH]; intros links.
  - simpl. now rewrite app_nil_r.
  - assert (Hm : matched_pairs known (c :: rest)
                 = match known !! ContactSyncItem.phone c with
                   | Some u => (c, u) :: matched_pairs known rest
                   | None => matched_pairs known rest
                   end).
    { unfold matched_pairs. cbn [omap list_omap].
      destruct (known !! ContactSyncItem.phone c); reflexivity. }
    rewrite Hm. cbn [sync_loop].
    destruct (known !! ContactSyncItem.phone c) as [u|].
    + rewrite IH. cbn [map link_of fst snd]. rewrite <- app_assoc. reflexivity.
    + apply IH.
Qed.

Lemma matched_pairs_length phones a contacts :
  (forall c, In c contacts -> In (ContactSyncItem.phone c) phones) ->
  length (matched_pairs (by_phone phones a) contacts)
  = length (List.filter (fun c => registered a (ContactSyncItem.phone c)) contacts).
Proof.
  induction contacts as [|c rest IH]; intros Hph; [reflexivity|].
  assert (Hm : matched_pairs (by_phone phones a) (c :: rest)
               = match by_phone phones a !! ContactSyncItem.phone c with
                 | Some u => (c, u) :: matched_pairs (by_phone phones a) rest
                 | None => matched_pairs (by_phone phones a) rest
                 end).
  { unfold matched_pairs. cbn [omap list_omap].
    destruct (by_phone phones a !! ContactSyncItem.phone c); reflexivity. }
  rewrite Hm. cbn [List.filter].
  destruct (by_phone_lookup phones a (ContactSyncItem.phone c)) as (_ & Hyes & Hno).
  destruct (registered a (ContactSyncItem.phone c)) eqn:Hreg.
  - destruct (Hyes (Hph c (or_introl eq_refl)) eq_refl) as [u ->]. simpl.
    f_equal. apply IH. intros c' Hc'. apply Hph. now right.
  - rewrite (Hno eq_refl). apply IH. intros c' Hc'. apply Hph. now right.
Qed.

Lemma matched_pairs_In known contacts c u :
  In (c, u) (matched_pairs known contacts) ->
  In c contacts /\ known !! ContactSyncItem.phone c = Some u.
Proof.
  unfold matched_pairs. intros H. apply list_elem_of_In, list_elem_of_omap in H.
  destruct H as (c' & Hc' & Heq). apply list_elem_of_In in Hc'.
  destruct (known !! ContactSyncItem.phone c') as [u'|] eqn:Hk; [|discriminate].
  simpl in Heq. injection Heq as <- <-. auto.
Qed.

Lemma sync_contacts_unfold E tok contacts a links w uid :
  outcome (require_user E (TokStr tok) w) = Ok uid ->
  let mp := matched_pairs (by_phone (map ContactSyncItem.phone contacts) a) contacts in
  sync_contacts E tok contacts a links w
  = (Ok (map (fun cu => contact_info (snd cu)) mp),
     links ++ map (link_of uid) mp,
     world_of (require_user E (TokStr tok) w)).
Proof.
  intros Hu. cbv zeta. unfold sync_contacts.
  rewrite (require_user_ok_inv _ _ _ _ Hu), sync_loop_spec. reflexivity.
Qed.



(** X26. Links pile up: a second sync of the same contacts by the same
    caller, with the users unchanged, matches the same entries and stores
    every link a second time, beside the first. *)
Theorem sync_contacts_again
    (E E' : Env) (tok tok' : string) (contacts : list ContactSyncItem.t)
    (a : Accounts) (links : list Contact.t) (w w' : World) (uid : string) :
  outcome (require_user E (TokStr tok) w) = Ok uid ->
  outcome (require_user E' (TokStr tok') w') = Ok uid ->
  let r1 := sync_contacts E tok contacts a links w in
  let r2 := sync_contacts E' tok' contacts a (snd (fst r1)) w' in
  fst (fst r2) = fst (fst r1)
  /\ exists added,
       snd (fst r1) = links ++ added
       /\ snd (fst r2) = links ++ added ++ added
       /\ length added
          = length (List.filter (fun c => registered a (ContactSyncItem.phone c))
                                contacts).
Proof.
  intros Hu Hu' r1 r2. unfold r2, r1.
  rewrite (sync_contacts_unfold _ _ _ _ _ _ _ Hu). cbv zeta. cbn [fst snd].
  rewrite (sync_contacts_unfold _ _ _ _ _ _ _ Hu'). cbv zeta. cbn [fst snd].
  split; [reflexivity|]. eexists. split; [reflexivity|].
  split; [now rewrite app_assoc|].
  rewrite length_map. apply matched_pairs_length.
  intros c Hc. now apply in_map.
Qed.

Lemma sync_contacts_again_witness :
  exists added,
    snd (fst (sync_contacts env_up "ta" address_book directory [] deployment))
    = [] ++ added
    /\ snd (fst (sync_contacts env_up "ta" address_book directory
                   (snd (fst (sync_contacts env_up "ta" address_book directory []
                                deployment)))
                   deployment))
       = [] ++ added ++ added
    /\ length added
       = length (List.filter (fun c => registered directory (ContactSyncItem.phone c))
                             address_book).
Proof.
  apply (sync_contacts_again env_up env_up "ta" "ta" address_book directory []
           deployment deployment "alice").
  - reflexivity.
  - reflexivity.
Defined.

Lemma parse_ids_In l ids :
  parse_ids l = inr ids ->
  forall oid, In oid ids <-> exists s, In s l /\ ObjectId s = Some oid.
Proof.
  revert ids. induction l as [|i l IH]; simpl; intros ids.
  - intros [= <-] oid. simpl. split; [tauto | intros (s & [] & _)].
  - destruct (ObjectId i) as [o|] eqn:Hi; [|discriminate].
    destruct (parse_ids l) as [bad|os]; [discriminate|].
    intros [= <-] oid. simpl. rewrite (IH os eq_refl oid). split.
    + intros [<-|(s & Hs & Ho)]; [exists i; auto | exists s; auto].
    + intros (s & [<-|Hs] & Ho); [left; congruence | right; eauto].
Qed.

Lemma parse_ids_all l :
  (forall s, In s l -> is_Some (ObjectId s)) -> exists ids, parse_ids l = inr ids.
Proof.
  induction l as [|i l IH]; simpl; intros Hall; [eauto|].
  destruct (Hall i (or_introl eq_refl)) as [o ->].
  destruct IH as [ids ->]; [intros s Hs; apply Hall; now right | eauto].
Qed.

(** [list_contacts] for a caller that passes the gate. *)
Lemma list_contacts_unfold E tok a links w uid :
  outcome (require_user E (TokStr tok) w) = Ok uid ->
  list_contacts E tok a links w =
  let contact_ids :=
    map Contact.contact_user_id
        (List.filter (fun l => String.eqb (Contact.user_id l) uid) links) in
  match contact_ids with
  | [] => (Ok [], world_of (require_user E (TokStr tok) w))
  | _ =>
      match parse_ids contact_ids with
      | inl bad => (Raise (InvalidId bad), world_of (require_user E (TokStr tok) w))
      | inr ids =>
          (Ok (map contact_info
                   (List.filter (fun u => existsb (N.eqb (fst u)) ids) (db_user a))),
           world_of (require_user E (TokStr tok) w))
      end
  end.
Proof.
  intros Hu. unfold list_contacts.
  now rewrite (require_user_ok_inv _ _ _ _ Hu).
Qed.

(** The ids of the caller's links, and what the answer is made of. *)
Lemma list_contacts_items E tok a links w uid items :
  outcome (require_user E (TokStr tok) w) = Ok uid ->
  fst (list_contacts E tok a links w) = Ok items ->
  exists ids,
    parse_ids (map Contact.contact_user_id
                   (List.filter (fun l => String.eqb (Contact.user_id l) uid) links))
    = inr ids
    /\ items = map contact_info
                   (List.filter (fun u => existsb (N.eqb (fst u)) ids) (db_user a)).
Proof.
  intros Hu. rewrite (list_contacts_unfold _ _ _ _ _ _ Hu). cbv zeta.
  destruct (map Contact.contact_user_id _) as [|i l] eqn:Hids.
  - simpl. intros [= <-]. exists []. split; [reflexivity|].
    rewrite filter_none; [reflexivity | auto].
  - destruct (parse_ids (i :: l)) as [bad|ids]; simpl; [discriminate|].
    intros [= <-]. eauto.
Qed.

(** X27. [list_contacts] lists exactly the users the caller's links point
    to: for a caller that passes the gate, an answer holds the entry of a
    stored user if and only if some stored link owned by the caller
    carries the id of that user; it is made of users in the order of the
    user collection, each at most once however many links point to it.
    The call answers when the ids in the caller's links are well formed,
    and ends with an unhandled [InvalidId] (a 500) when one is not; it
    writes nothing. *)
Theorem list_contacts_lists_linked_users
    (E : Env) (tok : string) (a : Accounts) (links : list Contact.t)
    (w : World) (uid : string) :
  outcome (require_user E (TokStr tok) w) = Ok uid ->
  let r := list_contacts E tok a links w in
  same_state w (snd r)
  /\ (forall items, fst r = Ok items ->
        (forall info,
            In info items <->
            exists u l,
              In u (db_user a) /\ In l links /\ Contact.user_id l = uid
              /\ ObjectId (Contact.contact_user_id l) = Some (fst u)
              /\ info = contact_info u)
        /\ exists keep, items = map contact_info (List.filter keep (db_user a)))
  /\ ((forall l, In l links -> Contact.user_id l = uid ->
         is_Some (ObjectId (Contact.contact_user_id l))) ->
      exists items, fst r = Ok items)
  /\ (forall l, In l links -> Contact.user_id l = uid ->
        ObjectId (Contact.contact_user_id l) = None ->
        exists bad, fst r = Raise (InvalidId bad)
                    /\ http_status (fst r) = 500%nat).
Proof.
  intros Hu r.
  pose proof (list_contacts_unfold E tok a links w uid Hu) as Hr. cbv zeta in Hr.
  set (mine := List.filter (fun l => String.eqb (Contact.user_id l) uid) links) in *.
  assert (Hmine : forall l, In l mine <-> In l links /\ Contact.user_id l = uid).
  { intros l. unfold mine. rewrite filter_In, String.eqb_eq. reflexivity. }
  split; [|split; [|split]].
  - unfold r. rewrite Hr.
    destruct (map Contact.contact_user_id mine) as [|i l];
      [|destruct (parse_ids (i :: l))]; simpl; apply require_user_same_state.
  - intros items Hitems.
    destruct (list_contacts_items _ _ _ _ _ _ _ Hu Hitems) as (ids & Hp & ->).
    fold mine in Hp. split; [|eauto].
    intros info. rewrite in_map_iff. split.
    + intros (u & <- & Hin). apply filter_In in Hin as [Hin Hex].
      apply existsb_exists in Hex as (oid & Hoid & Heq). apply N.eqb_eq in Heq.
      apply (parse_ids_In _ _ Hp) in Hoid as (s & Hs & Ho).
      apply in_map_iff in Hs as (l & <- & Hl). apply Hmine in Hl as [Hl Hown].
      exists u, l. subst oid. auto.
    + intros (u & l & Hin & Hl & Hown & Ho & ->). exists u. split; [reflexivity|].
      apply filter_In. split; [exact Hin|].
      apply existsb_exists. exists (fst u). split; [|apply N.eqb_refl].
      apply (parse_ids_In _ _ Hp). exists (Contact.contact_user_id l).
      split; [|exact Ho]. apply in_map. apply Hmine. auto.
  - intros Hall. unfold r. rewrite Hr.
    destruct (map Contact.contact_user_id mine) as [|i l] eqn:Hids; [simpl; eauto|].
    destruct (parse_ids_all (i :: l)) as [ids ->]; [|simpl; eauto].
    intros s Hs. rewrite <- Hids in Hs. apply in_map_iff in Hs as (l0 & <- & Hl0).
    apply Hmine in Hl0 as [Hl0 Hown]. now apply Hall.
  - intros l Hl Hown Hbad. unfold r. rewrite Hr.
    assert (Hin : In (Contact.contact_user_id l) (map Contact.contact_user_id mine))
      by (apply in_map, Hmine; auto).
    destruct (parse_ids_malformed _ _ Hin Hbad) as [bad Hp].
    destruct (map Contact.contact_user_id mine) as [|i l0]; [destruct Hin|].
    rewrite Hp. simpl. eauto.
Qed.

Lemma list_contacts_lists_linked_users_witness :
  exists items,
    fst (list_contacts env_up "ta" directory
           [Contact.mk "alice" id2 (Some "Bobby") "+2";
            Contact.mk "alice" id2 (Some "B. again") "+2"]
           deployment)
    = Ok items.
Proof.
  apply (proj1 (proj2 (proj2 (list_contacts_lists_linked_users
                                env_up "ta" directory
                                [Contact.mk "alice" id2 (Some "Bobby") "+2";
                                 Contact.mk "alice" id2 (Some "B. again") "+2"]
                                deployment "alice" eq_refl)))).
  intros l [<-|[<-|[]]] _; vm_compute; eauto.
Defined.

(** X28. What a sync matches, the list shows: after [sync_contacts], a
    [list_contacts] of the same caller, with the users unchanged, holds
    every entry the sync returned.  (For users with 12-byte ids, and a
    caller whose older links carry well-formed ids.) *)
Theorem sync_then_list_contacts
    (E E' : Env) (tok tok' : string) (contacts : list ContactSyncItem.t)
    (a : Accounts) (links : list Contact.t) (w w' : World) (uid : string) :
  outcome (require_user E (TokStr tok) w) = Ok uid ->
  outcome (require_user E' (TokStr tok') w') = Ok uid ->
  (forall u, In u (db_user a) -> (fst u < 16 ^ 24)%N) ->
  (forall l, In l links -> Contact.user_id l = uid ->
     is_Some (ObjectId (Contact.contact_user_id l))) ->
  let r1 := sync_contacts E tok contacts a links w in
  let r2 := list_contacts E' tok' a (snd (fst r1)) w' in
  exists results items,
    fst (fst r1) = Ok results
    /\ fst r2 = Ok items
    /\ forall info, In info results -> In info items.
Proof.
  intros Hu Hu' Hfit Hold r1 r2.
  pose proof (sync_contacts_unfold E tok contacts a links w uid Hu) as H1.
  cbv zeta in H1.
  set (mp := matched_pairs (by_phone (map ContactSyncItem.phone contacts) a) contacts)
    in *.
  assert (Hmp : forall c u, In (c, u) mp -> In u (db_user a)).
  { intros c u Hcu. apply matched_pairs_In in Hcu as [_ Hk].
    destruct (by_phone_lookup (map ContactSyncItem.phone contacts) a
                              (ContactSyncItem.phone c)) as (Hl & _ & _).
    now destruct (Hl _ Hk). }
  set (links1 := links ++ map (link_of uid) mp).
  assert (Hlinks1 : snd (fst r1) = links1) by (unfold r1; now rewrite H1).
  assert (Hwf : forall l, In l links1 -> Contact.user_id l = uid ->
                  is_Some (ObjectId (Contact.contact_user_id l))).
  { intros l Hl Hown. apply in_app_or in Hl as [Hl|Hl]; [now apply Hold|].
    apply in_map_iff in Hl as ([c u] & <- & Hcu). simpl.
    rewrite ObjectId_str_oid; [eauto|]. apply Hfit. eapply Hmp, Hcu. }
  unfold r2. rewrite Hlinks1.
  pose proof (list_contacts_unfold E' tok' a links1 w' uid Hu') as H2.
  cbv zeta in H2.
  set (mine := List.filter (fun l => String.eqb (Contact.user_id l) uid) links1) in *.
  assert (Hp : exists ids, parse_ids (map Contact.contact_user_id mine) = inr ids).
  { apply parse_ids_all. intros s Hs. apply in_map_iff in Hs as (l & <- & Hl).
    unfold mine in Hl. apply filter_In in Hl as [Hl Hown].
    apply String.eqb_eq in Hown. now apply Hwf. }
  destruct Hp as [ids Hp].
  exists (map (fun cu => contact_info (snd cu)) mp).
  exists (map contact_info
              (List.filter (fun u => existsb (N.eqb (fst u)) ids) (db_user a))).
  split; [unfold r1; now rewrite H1|]. split.
  - rewrite H2, Hp.
    destruct (map Contact.contact_user_id mine) as [|i l] eqn:Hids; [|reflexivity].
    simpl in Hp. injection Hp as <-. simpl.
    rewrite filter_none; [reflexivity | auto].
  - intros info Hinfo. apply in_map_iff in Hinfo as ([c u] & <- & Hcu). simpl.
    apply in_map. apply filter_In. split; [eapply Hmp, Hcu|].
    apply existsb_exists. exists (fst u). split; [|apply N.eqb_refl].
    apply (parse_ids_In _ _ Hp). exists (str_oid (fst u)). split.
    + apply in_map_iff. exists (link_of uid (c, u)). split; [reflexivity|].
      unfold mine. apply filter_In. split; [|simpl; apply String.eqb_refl].
      unfold links1. apply in_or_app. right. now apply in_map.
    + apply ObjectId_str_oid, Hfit. eapply Hmp, Hcu.
Qed.

Lemma sync_then_list_contacts_witness :
  exists results items,
    fst (fst (sync_contacts env_up "ta" address_book directory [] deployment))
    = Ok results
    /\ fst (list_contacts env_up "ta" directory
              (snd (fst (sync_contacts env_up "ta" address_book directory []
                           deployment)))
              deployment)
       = Ok items
    /\ forall info, In info results -> In info items.
Proof.
  apply (sync_then_list_contacts env_up env_up "ta" "ta" address_book directory []
           deployment deployment "alice").
  - reflexivity.
  - reflexivity.
  - intros u [<-|[<-|[]]]; vm_compute; reflexivity.
  - intros l [].
Defined.
